(** * The Yotpo reviews component (assets/yotpo-reviews.js)

    A shallow embedding of the [YotpoReviews] web component: its private
    fields as a record, its methods as computations over that record that
    log the effects they have on the host (markup written, requests issued,
    storage writes), and the renderers that have a shape of their own
    ([#renderStars], [#renderHistogram], [#generatePageNumbers]) as pure
    functions.

    JS numbers that the component only counts with (pages, totals, review
    ids, vote counts) are integers [Z].  A JS number with a fraction is
    the rational [Q] it denotes: the star rating is compared as it is
    (its floor and its remainder are exact in binary64), and the
    histogram percentage is computed with the rounding of binary64
    division and multiplication. *)

From Stdlib Require Import ZArith QArith Qround Qabs Qpower Lqa Sorted.
From Stdlib Require Import Ascii String.
From stdpp Require Import base option list gmap strings pretty.

Local Open Scope Z_scope.

(** ** Data received from the reviews API *)

(** An entry of [images_data]. *)
Record YotpoImage := {
  original_url : string;
  thumbnail_url : string;
}.

(** [YotpoReview]; [votes_up] and [votes_down] may be absent on the wire,
    the code reads them through [|| 0]. *)
Record YotpoReview := {
  id : Z;
  score : Q;
  votes_up : option Z;
  votes_down : option Z;
  images_data : option (list YotpoImage);
}.

(** [YotpoBottomline]; [star_distribution] is a JS object keyed by the
    decimal spelling of the star value. *)
Record YotpoBottomline := {
  total_review : Z;
  average_score : Q;
  star_distribution : option (gmap string Z);
}.

Record YotpoPagination := {
  page : Z;
  per_page : Z;
  total : Z;
}.

(** ** [#renderStars] *)

Inductive Star := Filled | Half | Empty.

(** The literals [0.3] and [0.7] denote binary64 numbers, which are these
    rationals.  [Math.floor(rating)] and [rating - fullStars] are exact in
    binary64 for a rating in the range of the display, so on every rating
    the component can hold the comparisons below are the ones the code
    makes. *)
Definition js_0_3 : Q := 5404319552844595 # 18014398509481984.
Definition js_0_7 : Q := 3152519739159347 # 4503599627370496.

(** [String.prototype.repeat]: a negative count raises [RangeError]. *)
Definition js_repeat {A} (x : A) (count : Z) : option (list A) :=
  if count <? 0 then None else Some (replicate (Z.to_nat count) x).

Definition stars_fullStars (rating : Q) : Z := Qfloor rating.

Definition stars_remainder (rating : Q) : Q :=
  (rating - inject_Z (stars_fullStars rating))%Q.

Definition stars_hasHalf (rating : Q) : bool :=
  Qle_bool js_0_3 (stars_remainder rating)
  && Qle_bool (stars_remainder rating) js_0_7.

(** [rating - fullStars > 0.7] *)
Definition stars_over (rating : Q) : bool :=
  negb (Qle_bool (stars_remainder rating) js_0_7).

Definition stars_extraFull (rating : Q) : Z :=
  if stars_over rating then 1 else 0.

Definition stars_emptyStars (rating : Q) : Z :=
  5 - stars_fullStars rating
    - (if stars_hasHalf rating then 1 else 0)
    - (if stars_over rating then 1 else 0).

(** The markup of [#renderStars] is a run of star glyphs, each marked
    filled, half or empty; the model keeps the run. *)
Definition renderStars (rating : Q) : option (list Star) :=
  filled ← js_repeat Filled (stars_fullStars rating + stars_extraFull rating);
  empty ← js_repeat Empty
            (Z.max 0 (stars_emptyStars rating - stars_extraFull rating));
  Some (filled ++ (if stars_hasHalf rating then [Half] else []) ++ empty).

Definition same_star (a b : Star) : bool :=
  match a, b with
  | Filled, Filled | Half, Half | Empty, Empty => true
  | _, _ => false
  end.

(** How many glyphs of one kind a run has. *)
Definition count_star (k : Star) (l : list Star) : nat :=
  length (List.filter (same_star k) l).

(** ** [#generatePageNumbers] *)

Inductive PageEntry :=
| PageNum (n : Z)
| Ellipsis.

(** [Array.from({ length: n }, (_, i) => f(i))]; a length that is not
    positive gives the empty array. *)
Definition array_from {A} (n : Z) (f : Z → A) : list A := f <$> seqZ 0 n.

(** The page window: every page up to seven pages, otherwise seven
    entries around the current page, with ['...'] for the pages left
    out. *)
Definition generatePageNumbers (current total : Z) : list PageEntry :=
  if total <=? 7 then array_from total (λ i, PageNum (i + 1))
  else if current <=? 4 then
    [PageNum 1; PageNum 2; PageNum 3; PageNum 4; PageNum 5; Ellipsis;
     PageNum total]
  else if total - 3 <=? current then
    [PageNum 1; Ellipsis; PageNum (total - 4); PageNum (total - 3);
     PageNum (total - 2); PageNum (total - 1); PageNum total]
  else
    [PageNum 1; Ellipsis; PageNum (current - 1); PageNum current;
     PageNum (current + 1); Ellipsis; PageNum total].

(** The page numbers of a window, in order, without the ellipses. *)
Definition page_numbers (l : list PageEntry) : list Z :=
  omap (λ e, match e with PageNum n => Some n | Ellipsis => None end) l.

(** ** Binary64 arithmetic

    A finite binary64 number is a rational; an operation of JS gives the
    binary64 number nearest to the exact result, the one with the even
    significand of two that are equally near.  Results beyond the largest
    binary64 number are not modelled. *)

(** The whole number nearest to [y], the even one of two equally near. *)
Definition round_half_even (y : Q) : Z :=
  let f := Qfloor y in
  match (y - inject_Z f ?= 1 # 2)%Q with
  | Lt => f
  | Gt => f + 1
  | Eq => if Z.even f then f else f + 1
  end.

(** The exponent of the power of two at or below a positive [q]. *)
Definition floor_log2 (q : Q) : Z :=
  let l := Z.log2 (Qnum q) - Z.log2 (Z.pos (Qden q)) in
  if Qle_bool (2 ^ l) q then l else l - 1.

(** The binary64 number nearest to [q]: 53 significant bits, or the
    spacing 2^-1074 of the subnormal numbers. *)
Definition binary64 (q : Q) : Q :=
  match (q ?= 0)%Q with
  | Eq => 0%Q
  | c =>
      let a := Qred (Qabs q) in
      let e := Z.max (floor_log2 a - 52) (-1074) in
      let v := Qred (inject_Z (round_half_even (a / 2 ^ e)) * 2 ^ e) in
      match c with
      | Lt => (- v)%Q
      | _ => v
      end
  end.

(** The exponent and the significand [binary64] gives a positive
    number. *)
Definition binary64_exponent (q : Q) : Z :=
  Z.max (floor_log2 (Qred (Qabs q)) - 52) (-1074).

Definition binary64_significand (q : Q) : Z :=
  round_half_even (Qred (Qabs q) / 2 ^ binary64_exponent q).

(** [a / b] and [a * b] of JS, for a divisor that is not zero. *)
Definition js_div (a b : Q) : Q := binary64 (a / b).
Definition js_mul (a b : Q) : Q := binary64 (a * b).

(** ** The component's state

    The private fields of the class, and the two host attributes the
    listing needs ([getAttribute] gives [null] for a missing one).  An
    [AbortController] is an object with an identity: the model names it by
    its creation index, and [controllers] counts the ones created so far.
    [#perPage] is initialised to 10 and never assigned, so it is a
    constant here.  [#currentDirection] is [None] when [handleSort] has
    assigned it [undefined] (a select value without a dash). *)

Record State := mkState {
  app_key_attr : option string;
  product_id_attr : option string;
  abortController : option nat;
  bottomline : option YotpoBottomline;
  reviews : list YotpoReview;
  pagination : option YotpoPagination;
  currentSort : string;
  currentDirection : option string;
  currentStarFilter : option Z;
  currentPage : Z;
  isLoading : bool;
  showForm : bool;
  votedReviews : gset Z;
  controllers : nat;
}.

Definition perPage : Z := 10.

(** The field initialisers of the class. *)
Definition initial (app_key product_id : option string) : State :=
  mkState app_key product_id None None [] None "date" (Some "desc") None 1
    false false ∅ 0.

(** [get appKey()] and [get productId()]: [getAttribute(..) || ''] *)
Definition appKey (s : State) : string :=
  default EmptyString (app_key_attr s).
Definition productId (s : State) : string :=
  default EmptyString (product_id_attr s).

Definition set_abortController (v : option nat) (s : State) : State :=
  mkState (app_key_attr s) (product_id_attr s) v (bottomline s)
    (reviews s) (pagination s) (currentSort s) (currentDirection s)
    (currentStarFilter s) (currentPage s) (isLoading s) (showForm s)
    (votedReviews s) (controllers s).

Definition set_bottomline (v : option YotpoBottomline) (s : State) : State :=
  mkState (app_key_attr s) (product_id_attr s) (abortController s) v
    (reviews s) (pagination s) (currentSort s) (currentDirection s)
    (currentStarFilter s) (currentPage s) (isLoading s) (showForm s)
    (votedReviews s) (controllers s).

Definition set_reviews (v : list YotpoReview) (s : State) : State :=
  mkState (app_key_attr s) (product_id_attr s) (abortController s)
    (bottomline s) v (pagination s) (currentSort s) (currentDirection s)
    (currentStarFilter s) (currentPage s) (isLoading s) (showForm s)
    (votedReviews s) (controllers s).

Definition set_pagination (v : option YotpoPagination) (s : State) : State :=
  mkState (app_key_attr s) (product_id_attr s) (abortController s)
    (bottomline s) (reviews s) v (currentSort s) (currentDirection s)
    (currentStarFilter s) (currentPage s) (isLoading s) (showForm s)
    (votedReviews s) (controllers s).

Definition set_currentSort (v : string) (s : State) : State :=
  mkState (app_key_attr s) (product_id_attr s) (abortController s)
    (bottomline s) (reviews s) (pagination s) v (currentDirection s)
    (currentStarFilter s) (currentPage s) (isLoading s) (showForm s)
    (votedReviews s) (controllers s).

Definition set_currentDirection (v : option string) (s : State) : State :=
  mkState (app_key_attr s) (product_id_attr s) (abortController s)
    (bottomline s) (reviews s) (pagination s) (currentSort s) v
    (currentStarFilter s) (currentPage s) (isLoading s) (showForm s)
    (votedReviews s) (controllers s).

Definition set_currentStarFilter (v : option Z) (s : State) : State :=
  mkState (app_key_attr s) (product_id_attr s) (abortController s)
    (bottomline s) (reviews s) (pagination s) (currentSort s)
    (currentDirection s) v (currentPage s) (isLoading s) (showForm s)
    (votedReviews s) (controllers s).

Definition set_currentPage (v : Z) (s : State) : State :=
  mkState (app_key_attr s) (product_id_attr s) (abortController s)
    (bottomline s) (reviews s) (pagination s) (currentSort s)
    (currentDirection s) (currentStarFilter s) v (isLoading s) (showForm s)
    (votedReviews s) (controllers s).

Definition set_isLoading (v : bool) (s : State) : State :=
  mkState (app_key_attr s) (product_id_attr s) (abortController s)
    (bottomline s) (reviews s) (pagination s) (currentSort s)
    (currentDirection s) (currentStarFilter s) (currentPage s) v
    (showForm s) (votedReviews s) (controllers s).

Definition set_showForm (v : bool) (s : State) : State :=
  mkState (app_key_attr s) (product_id_attr s) (abortController s)
    (bottomline s) (reviews s) (pagination s) (currentSort s)
    (currentDirection s) (currentStarFilter s) (currentPage s) (isLoading s)
    v (votedReviews s) (controllers s).

Definition set_votedReviews (v : gset Z) (s : State) : State :=
  mkState (app_key_attr s) (product_id_attr s) (abortController s)
    (bottomline s) (reviews s) (pagination s) (currentSort s)
    (currentDirection s) (currentStarFilter s) (currentPage s) (isLoading s)
    (showForm s) v (controllers s).

Definition set_controllers (v : nat) (s : State) : State :=
  mkState (app_key_attr s) (product_id_attr s) (abortController s)
    (bottomline s) (reviews s) (pagination s) (currentSort s)
    (currentDirection s) (currentStarFilter s) (currentPage s) (isLoading s)
    (showForm s) (votedReviews s) v.

(** ** Effects on the host *)

(** What [#render] puts between header and footer. *)
Inductive Body := BodyLoading | BodyForm | BodyContent.

Inductive View :=
| MainView (body : Body)
| ErrorView (message : string).

(** The listing URL of [#buildApiUrl], kept as its parts. *)
Record ApiUrl := {
  url_app_key : string;
  url_product_id : string;
  url_per_page : Z;
  url_page : Z;
  url_sort : string;
  url_direction : string;
  url_star : option Z;
}.

(** The submitted form, as [FormData] gives it; an empty or missing
    [score] is [None]. *)
Record ReviewForm := {
  form_score : option Z;
  form_title : string;
  form_content : string;
  form_display_name : string;
  form_email : string;
}.

Inductive Effect :=
| SetInnerHTML (v : View)
| AbortSignal (controller : nat)
| FetchListing (url : ApiUrl) (signal : nat)
| FetchVote (reviewId : Z) (vote : string) (appkey : string)
| FetchSubmit (appkey sku : string) (form : ReviewForm)
| StorageSetItem (voted : gset Z)
| ScrollIntoView
| FormMessage (message type : string)
| SubmitButton (disabled : bool) (text : string)
| SetTimeout (ms : Z)
| FormRating (rating : Z)
| ModalOpen (url : string)
| ModalClose.

(** ** Methods as computations

    A method reads and writes the fields and logs, in order, the effects
    it has on the host. *)

Definition M (A : Type) : Type := State → A * State * list Effect.

Global Instance M_ret : MRet M := λ A a s, (a, s, []).

Global Instance M_bind : MBind M := λ A B k m s,
  let '(a, s1, e1) := m s in
  let '(b, s2, e2) := k a s1 in
  (b, s2, e1 ++ e2).

Definition get : M State := λ s, (s, s, []).
Definition modify (f : State → State) : M unit := λ s, ((), f s, []).
Definition emit (e : Effect) : M unit := λ s, ((), s, [e]).

(** The state and the effects a method leaves. *)
Definition exec {A} (m : M A) (s : State) : State * list Effect :=
  let '(_, s', e) := m s in (s', e).

(** *** Rendering *)

Definition render_body (s : State) : Body :=
  if isLoading s then BodyLoading
  else if showForm s then BodyForm
  else BodyContent.

(** [#render], in a state whose ratings [#renderStars] can draw: the
    ratings of the API are from 0 to 5.  On a negative rating [repeat]
    raises a [RangeError] ([render_raises] below); the [#render] of a new
    listing is inside the [try] of [#fetchReviews], where a payload with
    such a rating arrives, and [fetchReviews_body] models what is raised
    and caught there. *)
Definition render : M unit :=
  s ← get; emit (SetInnerHTML (MainView (render_body s))).

(** [#renderError] *)
Definition renderError (message : string) : M unit :=
  emit (SetInnerHTML (ErrorView message)).

(** A row of the histogram: the star value, its count, the width of its
    bar in percent, and whether it is the active filter. *)
Record HistogramRow := {
  row_star : Z;
  row_count : Z;
  row_width : Q;
  row_active : bool;
}.

Record Histogram := {
  rows : list HistogramRow;
  clear_filter : bool;
}.

(** [this.#bottomline.total_review || 1] *)
Definition histogram_total (b : YotpoBottomline) : Z :=
  if total_review b =? 0 then 1 else total_review b.

(** [distribution[String(star)] || 0] *)
Definition histogram_count (distribution : gmap string Z) (star : Z) : Z :=
  default 0 (distribution !! pretty star).

(** [(count / total) * 100]: the quotient is rounded to binary64, then
    the product is. *)
Definition histogram_percentage (count total : Z) : Q :=
  js_mul (js_div (inject_Z count) (inject_Z total)) 100.

(** [#renderHistogram]; [None] is the empty markup of a summary without
    a distribution. *)
Definition renderHistogram (s : State) : option Histogram :=
  b ← bottomline s;
  distribution ← star_distribution b;
  let total := histogram_total b in
  Some {|
    rows := (λ star,
               let count := histogram_count distribution star in
               {| row_star := star;
                  row_count := count;
                  row_width := histogram_percentage count total;
                  row_active := bool_decide (currentStarFilter s = Some star)
               |}) <$> [5; 4; 3; 2; 1];
    clear_filter := bool_decide (currentStarFilter s ≠ None)
  |}.

(** [Math.ceil(total / perPage)]; the quotient is taken exactly: for a
    whole total below 2^53 its binary64 rounding has the same ceiling
    (a fraction of a tenth or more is above half the spacing there). *)
Definition page_count (p : YotpoPagination) : Z :=
  Qceiling (inject_Z (total p) / inject_Z perPage).

(** [#renderPagination]: the page window, when there is more than one
    page. *)
Definition renderPagination (s : State) : option (list PageEntry) :=
  p ← pagination s;
  if total p <=? perPage then None
  else Some (generatePageNumbers (currentPage s) (page_count p)).

(** *** Voted reviews and local storage *)

(** [#loadVotedReviews]; [stored] is the parsed entry, [None] when the
    entry is missing or empty, or when reading or parsing it throws. *)
Definition loadVotedReviews (stored : option (list Z)) : M unit :=
  match stored with
  | Some ids => modify (set_votedReviews (list_to_set ids))
  | None => mret ()
  end.

(** [#saveVotedReviews]; a failing [setItem] is swallowed and leaves the
    fields as they are. *)
Definition saveVotedReviews : M unit :=
  s ← get; emit (StorageSetItem (votedReviews s)).

(** *** The fetch controller *)

(** [#buildApiUrl]; an undefined direction is spelled ["undefined"] by
    [URLSearchParams]. *)
Definition buildApiUrl (s : State) : ApiUrl :=
  {| url_app_key := appKey s;
     url_product_id := productId s;
     url_per_page := perPage;
     url_page := currentPage s;
     url_sort := currentSort s;
     url_direction := default "undefined" (currentDirection s);
     url_star := currentStarFilter s |}.

(** [this.#abortController?.abort()] *)
Definition abort_current : M unit :=
  s ← get;
  match abortController s with
  | Some c => emit (AbortSignal c)
  | None => mret ()
  end.

(** [new AbortController()] *)
Definition new_AbortController : M nat :=
  s ← get;
  modify (set_controllers (S (controllers s)));;
  mret (controllers s).

(** [!this.appKey || !this.productId]: a string is falsy when empty. *)
Definition missing_identifier (s : State) : bool :=
  bool_decide (appKey s = EmptyString)
  || bool_decide (productId s = EmptyString).

(** [#fetchReviews] up to its first [await]. *)
Definition fetchReviews : M unit :=
  s ← get;
  if missing_identifier s then
    renderError "Missing app-key or product-id attribute"
  else
    abort_current;;
    c ← new_AbortController;
    modify (set_abortController (Some c));;
    modify (set_isLoading true);;
    render;;
    s ← get;
    emit (FetchListing (buildApiUrl s) c).

(** What a [catch] clause can receive: an [Error] with its name and
    message, or a value that is not an [Error]. *)
Inductive Thrown :=
| JsError (name message : string)
| NotAnError.

(** How an awaited promise settles. *)
Inductive Settled (A : Type) :=
| Fulfilled (v : A)
| Rejected (e : Thrown).
Arguments Fulfilled {A} v.
Arguments Rejected {A} e.

(** The transport response: [response.ok] and [response.status]. *)
Record Response := {
  resp_ok : bool;
  resp_status : Z;
}.

(** The JSON envelope ([YotpoResponse]); a missing member is [None]. *)
Record ResponseData := {
  data_bottomline : option YotpoBottomline;
  data_reviews : option (list YotpoReview);
  data_pagination : option YotpoPagination;
}.

Record YotpoResponse := {
  status : option Z;
  response : option ResponseData;
}.

(** The [catch] clause of [#fetchReviews]. *)
Definition fetchReviews_catch (error : Thrown) : M unit :=
  match error with
  | JsError name message =>
      if bool_decide (name = "AbortError") then mret ()
      else modify (set_isLoading false);; renderError message
  | NotAnError =>
      modify (set_isLoading false);; renderError "Failed to load reviews"
  end.

(** [#fetchReviews] from [await fetch(..)] to [await response.json()];
    the result says whether the body is awaited next. *)
Definition fetchReviews_response (r : Settled Response) : M bool :=
  match r with
  | Rejected e => fetchReviews_catch e;; mret false
  | Fulfilled resp =>
      if resp_ok resp then mret true
      else
        fetchReviews_catch
          (JsError "Error" ("HTTP " +:+ pretty (resp_status resp)));;
        mret false
  end.

(** The ratings [#render] hands to [#renderStars], in order: the average
    of the header ([bottomline?.average_score || 0]) and, when the
    content is drawn, the score of each review. *)
Definition rendered_ratings (s : State) : list Q :=
  default 0%Q (average_score <$> bottomline s)
  :: (if isLoading s || showForm s then [] else score <$> reviews s).

(** What [#renderStars] raises for a rating: the [RangeError] of
    [repeat] for a negative count of filled stars (the message is the
    engine's, here V8's).  The count of empty stars goes through
    [Math.max(0, ..)] and is never negative.  An engine also refuses a
    count whose run exceeds its longest string; a rating has to be in the
    hundreds of thousands for that, and the statements below speak of
    ratings up to 5. *)
Definition stars_raise (rating : Q) : option Thrown :=
  let count := stars_fullStars rating + stars_extraFull rating in
  if count <? 0
  then Some (JsError "RangeError" ("Invalid count value: " +:+ pretty count))
  else None.

(** What [#render] raises in a state, if anything: the error of the first
    rating [#renderStars] cannot draw. *)
Definition render_raises (s : State) : option Thrown :=
  head (omap stars_raise (rendered_ratings s)).

(** [data.status && data.status !== 200] *)
Definition api_failure (data : YotpoResponse) : option Z :=
  match status data with
  | Some st => if (st =? 0) || (st =? 200) then None else Some st
  | None => None
  end.

(** [#fetchReviews] after [await response.json()]; the [#render] of the
    new listing is inside the [try], so what it raises reaches the
    [catch] clause. *)
Definition fetchReviews_body (r : Settled YotpoResponse) : M unit :=
  match r with
  | Rejected e => fetchReviews_catch e
  | Fulfilled data =>
      match api_failure data with
      | Some st =>
          fetchReviews_catch (JsError "Error" ("API error: " +:+ pretty st))
      | None =>
          modify (set_bottomline (response data ≫= data_bottomline));;
          modify (set_reviews (default [] (response data ≫= data_reviews)));;
          modify (set_pagination (response data ≫= data_pagination));;
          modify (set_isLoading false);;
          s ← get;
          match render_raises s with
          | Some error => fetchReviews_catch error
          | None => render
          end
      end
  end.

(** [retryFetch] *)
Definition retryFetch : M unit := fetchReviews.

(** [connectedCallback] *)
Definition connectedCallback (stored : option (list Z)) : M unit :=
  loadVotedReviews stored;; fetchReviews.

(** [disconnectedCallback] *)
Definition disconnectedCallback : M unit := abort_current.

(** *** Sort and filter controls *)

(** [String.prototype.split] with a one-character separator. *)
Fixpoint js_split (sep : ascii) (s : string) : list string :=
  match s with
  | EmptyString => [EmptyString]
  | String c rest =>
      if Ascii.eqb c sep then EmptyString :: js_split sep rest
      else match js_split sep rest with
           | [] => [String c EmptyString]
           | w :: ws => String c w :: ws
           end
  end.

(** [handleSort]; [target] is the value of the select the event comes
    from, [None] when the event has no target. *)
Definition handleSort (target : option string) : M unit :=
  match target with
  | None => mret ()
  | Some value =>
      let parts := js_split "-"%char value in
      modify (set_currentSort (default EmptyString (parts !! 0%nat)));;
      modify (set_currentDirection (parts !! 1%nat));;
      modify (set_currentPage 1);;
      fetchReviews
  end.

(** [filterByStar] *)
Definition filterByStar (star : Z) : M unit :=
  s ← get;
  (if bool_decide (currentStarFilter s = Some star)
   then modify (set_currentStarFilter None)
   else modify (set_currentStarFilter (Some star)));;
  modify (set_currentPage 1);;
  fetchReviews.

(** [clearStarFilter] *)
Definition clearStarFilter : M unit :=
  modify (set_currentStarFilter None);;
  modify (set_currentPage 1);;
  fetchReviews.

(** *** Pagination *)

Definition totalPages (s : State) : Z :=
  match pagination s with
  | Some p => page_count p
  | None => 1
  end.

(** [goToPage] *)
Definition goToPage (p : Z) : M unit :=
  s ← get;
  if (p <? 1) || (totalPages s <? p) then mret ()
  else
    modify (set_currentPage p);;
    fetchReviews;;
    emit ScrollIntoView.

(** *** Voting *)

Record VoteData := {
  reviewId : Z;
  vote : string;
}.

(** The optimistic increment of the counter the vote names. *)
Definition count_vote (vote : string) (r : YotpoReview) : YotpoReview :=
  if bool_decide (vote = "up") then
    {| id := id r; score := score r;
       votes_up := Some (default 0 (votes_up r) + 1);
       votes_down := votes_down r; images_data := images_data r |}
  else
    {| id := id r; score := score r;
       votes_up := votes_up r;
       votes_down := Some (default 0 (votes_down r) + 1);
       images_data := images_data r |}.

(** [this.#reviews.find((r) => r.id === reviewId)] followed by the update
    of the review found: the object is the one the list holds, so the
    list sees the update. *)
Fixpoint vote_on (reviewId : Z) (vote : string) (l : list YotpoReview)
  : list YotpoReview :=
  match l with
  | [] => []
  | r :: rest =>
      if id r =? reviewId then count_vote vote r :: rest
      else r :: vote_on reviewId vote rest
  end.

(** [voteHelpful] up to its [await]; nothing follows the [await]. *)
Definition voteHelpful (data : VoteData) : M unit :=
  s ← get;
  if bool_decide (reviewId data ∈ votedReviews s) then mret ()
  else
    modify (set_votedReviews ({[reviewId data]} ∪ votedReviews s));;
    saveVotedReviews;;
    s ← get;
    modify (set_reviews (vote_on (reviewId data) (vote data) (reviews s)));;
    render;;
    emit (FetchVote (reviewId data) (vote data) (appKey s)).

(** *** The review form *)

(** [toggleForm] *)
Definition toggleForm : M unit :=
  s ← get;
  modify (set_showForm (negb (showForm s)));;
  render.

(** [setFormRating] only touches the form's elements. *)
Definition setFormRating (rating : Z) : M unit := emit (FormRating rating).

(** [submitReview] up to its [await]; [form] is [None] when the event has
    no target. *)
Definition submitReview (form : option ReviewForm) : M unit :=
  match form with
  | None => mret ()
  | Some f =>
      match form_score f with
      | None => emit (FormMessage "Please select a star rating" "error")
      | Some _ =>
          emit (SubmitButton true "Submitting...");;
          s ← get;
          emit (FetchSubmit (appKey s) (productId s) f)
      end
  end.

(** [submitReview] after its [await]. *)
Definition submitReview_settled (r : Settled Response) : M unit :=
  let failed :=
    emit (FormMessage "Failed to submit review. Please try again." "error");;
    emit (SubmitButton false "Submit Review") in
  match r with
  | Rejected _ => failed
  | Fulfilled resp =>
      if resp_ok resp then
        emit (FormMessage
          "Thank you! Your review has been submitted and is pending approval."
          "success");;
        emit (SetTimeout 3000)
      else failed
  end.

(** The callback [submitReview] hands to [setTimeout]. *)
Definition submitReview_timeout : M unit :=
  modify (set_showForm false);; render.

(** *** The image lightbox *)

(** [openImageModal] *)
Definition openImageModal (reviewId : Z) (imageIndex : nat) : M unit :=
  s ← get;
  match
    r ← List.find (λ r, id r =? reviewId) (reviews s);
    images ← images_data r;
    images !! imageIndex
  with
  | Some image => emit (ModalOpen (original_url image))
  | None => mret ()
  end.

(** [closeImageModal] *)
Definition closeImageModal : M unit := emit ModalClose.

(** ** The host's side of a session

    The component runs on one thread: a method runs to its [await], and
    what follows the [await] runs when the host settles the promise.  The
    host keeps which signals were aborted and which listing requests are
    still in flight. *)

Inductive Phase := AwaitResponse | AwaitBody.

Record Host := mkHost {
  aborted : gset nat;
  pending : gmap nat Phase;
  issued : list nat;
  submitting : nat;
  timers : nat;
}.

Definition no_host : Host := mkHost ∅ ∅ [] 0 0.

Definition set_pending (v : gmap nat Phase) (h : Host) : Host :=
  mkHost (aborted h) v (issued h) (submitting h) (timers h).

Definition set_submitting (v : nat) (h : Host) : Host :=
  mkHost (aborted h) (pending h) (issued h) v (timers h).

Definition set_timers (v : nat) (h : Host) : Host :=
  mkHost (aborted h) (pending h) (issued h) (submitting h) v.

(** What one effect of the component does to the host's bookkeeping;
    [issued] lists the signals of the listing requests, latest first. *)
Definition host_effect (h : Host) (e : Effect) : Host :=
  match e with
  | AbortSignal c =>
      mkHost ({[c]} ∪ aborted h) (pending h) (issued h) (submitting h)
        (timers h)
  | FetchListing _ signal =>
      mkHost (aborted h) (<[signal := AwaitResponse]> (pending h))
        (signal :: issued h) (submitting h) (timers h)
  | FetchSubmit _ _ _ => set_submitting (S (submitting h)) h
  | SetTimeout _ => set_timers (S (timers h)) h
  | _ => h
  end.

Definition host_effects (h : Host) (es : list Effect) : Host :=
  foldl host_effect h es.

(** The host's [fetch]: once the signal of a request is aborted, what the
    component awaits for it rejects with an [AbortError], whatever the
    network delivers. *)
Definition settle {A} (h : Host) (signal : nat) (r : Settled A) : Settled A :=
  if bool_decide (signal ∈ aborted h)
  then Rejected (JsError "AbortError" "The operation was aborted.")
  else r.

Record System := mkSystem {
  self : State;
  host : Host;
}.

(** What can happen in a session: the element is connected or
    disconnected, the user acts, a promise settles, a timer fires. *)
Inductive Event :=
| Connected (stored : option (list Z))
| Disconnected
| RetryFetch
| HandleSort (target : option string)
| FilterByStar (star : Z)
| ClearStarFilter
| GoToPage (p : Z)
| VoteHelpful (data : VoteData)
| ToggleForm
| SetFormRating (rating : Z)
| SubmitReview (form : option ReviewForm)
| OpenImageModal (reviewId : Z) (imageIndex : nat)
| CloseImageModal
| ListingResponse (signal : nat) (r : Settled Response)
| ListingBody (signal : nat) (r : Settled YotpoResponse)
| SubmitResponse (r : Settled Response)
| Timeout.

(** Run a method of the component and let the host see its effects. *)
Definition call (m : M unit) (sys : System) : System * list Effect :=
  let '(s, es) := exec m (self sys) in
  (mkSystem s (host_effects (host sys) es), es).

Definition step (sys : System) (ev : Event) : System * list Effect :=
  match ev with
  | Connected stored => call (connectedCallback stored) sys
  | Disconnected => call disconnectedCallback sys
  | RetryFetch => call retryFetch sys
  | HandleSort target => call (handleSort target) sys
  | FilterByStar star => call (filterByStar star) sys
  | ClearStarFilter => call clearStarFilter sys
  | GoToPage p => call (goToPage p) sys
  | VoteHelpful data => call (voteHelpful data) sys
  | ToggleForm => call toggleForm sys
  | SetFormRating rating => call (setFormRating rating) sys
  | SubmitReview form => call (submitReview form) sys
  | OpenImageModal reviewId imageIndex =>
      call (openImageModal reviewId imageIndex) sys
  | CloseImageModal => call closeImageModal sys
  | ListingResponse signal r =>
      match pending (host sys) !! signal with
      | Some AwaitResponse =>
          let '(more, s, es) :=
            fetchReviews_response (settle (host sys) signal r) (self sys) in
          let h := host_effects (host sys) es in
          (mkSystem s
             (set_pending
                (if more : bool then <[signal := AwaitBody]> (pending h)
                 else delete signal (pending h)) h),
           es)
      | _ => (sys, [])
      end
  | ListingBody signal r =>
      match pending (host sys) !! signal with
      | Some AwaitBody =>
          let '(s, es) :=
            exec (fetchReviews_body (settle (host sys) signal r)) (self sys) in
          let h := host_effects (host sys) es in
          (mkSystem s (set_pending (delete signal (pending h)) h), es)
      | _ => (sys, [])
      end
  | SubmitResponse r =>
      match submitting (host sys) with
      | S n =>
          call (submitReview_settled r)
            (mkSystem (self sys) (set_submitting n (host sys)))
      | O => (sys, [])
      end
  | Timeout =>
      match timers (host sys) with
      | S n =>
          call submitReview_timeout
            (mkSystem (self sys) (set_timers n (host sys)))
      | O => (sys, [])
      end
  end.

Definition run (sys : System) (evs : list Event) : System :=
  foldl (λ sys ev, (step sys ev).1) sys evs.

(** A freshly constructed element. *)
Definition boot (app_key product_id : option string) : System :=
  mkSystem (initial app_key product_id) no_host.

(** The three collections a listing response replaces. *)
Definition listing (s : State)
  : option YotpoBottomline * list YotpoReview * option YotpoPagination :=
  (bottomline s, reviews s, pagination s).

(** The events that run the startup loader: [connectedCallback]. *)
Definition is_startup (ev : Event) : bool :=
  match ev with
  | Connected _ => true
  | _ => false
  end.

(** ** Vocabulary of the statements *)

(** What [this.#abortController?.abort()] logs in a state. *)
Definition abort_effects (s : State) : list Effect :=
  match abortController s with
  | Some c => [AbortSignal c]
  | None => []
  end.

(** The state [#fetchReviews] leaves at its [await] when it issues a
    request. *)
Definition fetching (s : State) : State :=
  set_isLoading true
    (set_abortController (Some (controllers s))
       (set_controllers (S (controllers s)) s)).

(** The listing requests among some effects. *)
Definition listing_requests (es : list Effect) : list ApiUrl :=
  omap (λ e, match e with FetchListing url _ => Some url | _ => None end) es.

(** The signal of the listing request an event settles. *)
Definition settles (ev : Event) : option nat :=
  match ev with
  | ListingResponse signal _ | ListingBody signal _ => Some signal
  | _ => None
  end.

(** The state an accepted listing response leaves: the three collections
    replaced and the loading flag cleared. *)
Definition listed (data : YotpoResponse) (s : State) : State :=
  set_isLoading false
    (set_pagination (response data ≫= data_pagination)
       (set_reviews (default [] (response data ≫= data_reviews))
          (set_bottomline (response data ≫= data_bottomline) s))).

(** What an accepted listing response draws: the main view, or the error
    view when [#render] raised. *)
Definition listed_view (s : State) : View :=
  match render_raises s with
  | Some (JsError _ message) => ErrorView message
  | Some NotAnError => ErrorView "Failed to load reviews"
  | None => MainView (render_body s)
  end.

(** The signals [this.#abortController?.abort()] aborts in a state. *)
Definition abort_set (s : State) : gset nat :=
  match abortController s with
  | Some c => {[c]}
  | None => ∅
  end.

(** What a method may do to the controller and to the host's view of the
    listing requests: nothing; abort the current controller; or abort it,
    create the next one and issue a request under its signal. *)
Inductive controls (s s' : State) (h h' : Host) : Prop :=
| controls_quiet :
    abortController s' = abortController s →
    controllers s' = controllers s →
    aborted h' = aborted h →
    pending h' = pending h →
    issued h' = issued h →
    controls s s' h h'
| controls_abort :
    abortController s' = abortController s →
    controllers s' = controllers s →
    aborted h' = abort_set s ∪ aborted h →
    pending h' = pending h →
    issued h' = issued h →
    controls s s' h h'
| controls_fetch :
    abortController s' = Some (controllers s) →
    controllers s' = S (controllers s) →
    aborted h' = abort_set s ∪ aborted h →
    pending h' = <[controllers s := AwaitResponse]> (pending h) →
    issued h' = controllers s :: issued h →
    controls s s' h h'.

(** The controller the component holds is the one of the latest listing
    request; signals are creation indices; and a request still in flight
    is the latest one or has an aborted signal. *)
Definition latest_or_aborted (sys : System) : Prop :=
  abortController (self sys) = head (issued (host sys))
  ∧ (∀ k, k ∈ issued (host sys) → (k < controllers (self sys))%nat)
  ∧ (∀ k, is_Some (pending (host sys) !! k) →
       k ∈ issued (host sys)
       ∧ (head (issued (host sys)) = Some k ∨ k ∈ aborted (host sys))).

(** A listing response with one review, used to try the session on. *)
Definition sample_listing : YotpoResponse :=
  {| status := Some 200;
     response := Some
       {| data_bottomline := Some
            {| total_review := 1; average_score := 4;
               star_distribution := Some {[ "4" := 1 ]} |};
          data_reviews := Some
            [{| id := 7; score := 4; votes_up := None; votes_down := None;
                images_data := None |}];
          data_pagination := Some {| page := 1; per_page := 10; total := 1 |}
       |} |}.

(** A summary whose total is zero while its distribution counts three
    five-star reviews. *)
Definition inconsistent_summary : YotpoBottomline :=
  {| total_review := 0;
     average_score := 0;
     star_distribution := Some {[ "5" := 3 ]} |}.

(** ** The rest of the renderers *)

(** [image.thumbnail_url || image.original_url] *)
Definition image_src (image : YotpoImage) : string :=
  if bool_decide (thumbnail_url image = EmptyString) then original_url image
  else thumbnail_url image.

(** [#renderReviewImages]: the sources of the thumbnails, none for a
    review without images. *)
Definition renderReviewImages (review : YotpoReview) : list string :=
  image_src <$> default [] (images_data review).

(** What [#renderReview] draws of a review, its texts apart: the rating,
    the thumbnails, and the two vote buttons with their counts, disabled
    together when the review is in the voted set. *)
Record ReviewItem := {
  item_id : Z;
  item_stars : option (list Star);
  item_images : list string;
  item_votes_up : Z;
  item_votes_down : Z;
  item_vote_disabled : bool;
}.

Definition renderReview (s : State) (review : YotpoReview) : ReviewItem :=
  {| item_id := id review;
     item_stars := renderStars (score review);
     item_images := renderReviewImages review;
     item_votes_up := default 0 (votes_up review);
     item_votes_down := default 0 (votes_down review);
     item_vote_disabled := bool_decide (id review ∈ votedReviews s) |}.

(** [#renderReviewsList]: the message for a filter without matches, or
    one item per review, in order. *)
Inductive ReviewsList :=
| NoResults
| ReviewItems (items : list ReviewItem).

Definition renderReviewsList (s : State) : ReviewsList :=
  match reviews s with
  | [] => NoResults
  | l => ReviewItems (renderReview s <$> l)
  end.

(** The options of the sort select: the value, and the field and the
    direction it stands for. *)
Definition sort_options : list (string * (string * string)) :=
  [("date-desc", ("date", "desc")); ("date-asc", ("date", "asc"));
   ("score-desc", ("score", "desc")); ("score-asc", ("score", "asc"));
   ("votes_up-desc", ("votes_up", "desc"))].

(** [#renderControls]: the values of the options marked [selected], and
    the three numbers of the line "Showing a-b of n" when there is
    pagination data. *)
Record Controls := {
  selected : list string;
  showing : option (Z * Z * Z);
}.

Definition renderControls (s : State) : Controls :=
  {| selected :=
       fst <$> List.filter
                 (λ o, bool_decide (currentSort s = o.2.1)
                       && bool_decide (currentDirection s = Some o.2.2))
                 sort_options;
     showing :=
       p ← pagination s;
       Some (Z.min ((currentPage s - 1) * perPage + 1) (total p),
             Z.min (currentPage s * perPage) (total p),
             total p) |}.

(** A control of the pagination bar between "Previous" and "Next". *)
Inductive PageControl :=
| PageButton (target : Z) (active : bool)
| PageGap.

(** The bar of [#renderPagination]: the targets of "Previous" and "Next"
    with their [disabled] attributes, and the controls of the window. *)
Record PaginationNav := {
  nav_prev : Z;
  nav_prev_disabled : bool;
  nav_pages : list PageControl;
  nav_next : Z;
  nav_next_disabled : bool;
}.

Definition renderPaginationNav (s : State) : option PaginationNav :=
  pages ← renderPagination s;
  Some {| nav_prev := currentPage s - 1;
          nav_prev_disabled := currentPage s =? 1;
          nav_pages :=
            (λ e, match e with
                  | PageNum n => PageButton n (n =? currentPage s)
                  | Ellipsis => PageGap
                  end) <$> pages;
          nav_next := currentPage s + 1;
          nav_next_disabled := currentPage s =? totalPages s |}.

(** The pages the enabled controls of a bar lead to. *)
Definition nav_targets (nav : PaginationNav) : list Z :=
  (if nav_prev_disabled nav then [] else [nav_prev nav])
  ++ omap (λ c, match c with
                | PageButton n _ => Some n
                | PageGap => None
                end) (nav_pages nav)
  ++ (if nav_next_disabled nav then [] else [nav_next nav]).

(** [!this.#currentStarFilter]: no filter, or the filter 0. *)
Definition no_star_filter (s : State) : bool :=
  match currentStarFilter s with
  | None => true
  | Some star => star =? 0
  end.

(** [#renderContent]: the invitation to write the first review, or the
    controls, the list and the pagination bar. *)
Inductive Content :=
| NoReviewsYet
| ContentView (controls : Controls) (list : ReviewsList)
    (nav : option PaginationNav).

Definition renderContent (s : State) : Content :=
  if bool_decide (reviews s = []) && no_star_filter s then NoReviewsYet
  else ContentView (renderControls s) (renderReviewsList s)
         (renderPaginationNav s).

(** What a later [getItem] and [JSON.parse] give for an entry written by
    [#saveVotedReviews], when the storage took the write: the ids of the
    set (their order is not kept). *)
Definition stored_entry (voted : gset Z) : option (list Z) :=
  Some (elements voted).

(** The set a method last handed to the storage, if it wrote at all. *)
Definition last_saved (es : list Effect) : option (gset Z) :=
  last (omap (λ e, match e with
                   | StorageSetItem voted => Some voted
                   | _ => None
                   end) es).

(** The error views among some effects. *)
Definition error_views (es : list Effect) : list string :=
  omap (λ e, match e with
             | SetInnerHTML (ErrorView message) => Some message
             | _ => None
             end) es.

(** Whether some effects reach the network. *)
Definition is_request (e : Effect) : bool :=
  match e with
  | FetchListing _ _ | FetchVote _ _ _ | FetchSubmit _ _ _ => true
  | _ => false
  end.

(** Whether a page window hides pages exactly where it has an ellipsis:
    neighbours are consecutive pages, and an ellipsis stands between two
    pages that are not. *)
Fixpoint abbreviates (l : list PageEntry) : bool :=
  match l with
  | PageNum a :: (PageNum b :: _) as rest => (b =? a + 1) && abbreviates rest
  | PageNum a :: Ellipsis :: (PageNum b :: _) as rest =>
      (a + 1 <? b) && abbreviates rest
  | [PageNum _] | [] => true
  | _ => false
  end.

(** Whether a character occurs in a string. *)
Fixpoint has_char (c : ascii) (s : string) : bool :=
  match s with
  | EmptyString => false
  | String x rest => Ascii.eqb x c || has_char c rest
  end.

(** The counts of a histogram, added up. *)
Definition histogram_counted (h : Histogram) : Z :=
  foldr Z.add 0 (row_count <$> rows h).

(** ** Theorems: the star display *)

Lemma stars_remainder_range rating :
  (0 <= stars_remainder rating)%Q ∧ (stars_remainder rating < 1)%Q.
Proof.
  unfold stars_remainder, stars_fullStars.
  pose proof (Qfloor_le rating) as Hle.
  pose proof (Qlt_floor rating) as Hlt.
  rewrite inject_Z_plus in Hlt. change (inject_Z 1) with 1%Q in Hlt.
  split; lra.
Qed.


Lemma count_star_app k l1 l2 :
  count_star k (l1 ++ l2) = (count_star k l1 + count_star k l2)%nat.
Proof. unfold count_star. by rewrite List.filter_app, length_app. Qed.

Lemma count_star_cons k x l :
  count_star k (x :: l)
  = ((if same_star k x then 1 else 0) + count_star k l)%nat.
Proof. unfold count_star. simpl. by destruct (same_star k x). Qed.

Lemma count_star_replicate k n x :
  count_star k (replicate n x) = if same_star k x then n else 0%nat.
Proof.
  unfold count_star. induction n as [|n IH]; simpl.
  - by destruct (same_star k x).
  - destruct (same_star k x); simpl; [by rewrite IH | exact IH].
Qed.

Lemma js_repeat_nonneg {A} (x : A) count :
  0 ≤ count → js_repeat x count = Some (replicate (Z.to_nat count) x).
Proof.
  intros H. unfold js_repeat. by destruct (Z.ltb_spec count 0); [lia|].
Qed.

Lemma stars_fullStars_range rating :
  (0 <= rating)%Q → (rating <= 5)%Q → 0 ≤ stars_fullStars rating ≤ 5.
Proof.
  intros H0 H5. unfold stars_fullStars. split.
  - change 0 with (Qfloor 0). by apply Qfloor_resp_le.
  - change 5 with (Qfloor 5). by apply Qfloor_resp_le.
Qed.

(** A half star and a rounded-up star exclude each other, and a rating of
    five full stars has neither. *)
Lemma stars_half_over rating :
  (0 <= rating)%Q → (rating <= 5)%Q →
  (stars_hasHalf rating = true → stars_over rating = false)
  ∧ (stars_fullStars rating = 5 →
     stars_hasHalf rating = false ∧ stars_over rating = false).
Proof.
  intros H0 H5. unfold stars_hasHalf, stars_over. split.
  - intros [_ ->]%andb_true_iff. done.
  - intros Hfull.
    assert (stars_remainder rating <= 0)%Q as Hrem.
    { unfold stars_remainder. rewrite Hfull. change (inject_Z 5) with 5%Q. lra. }
    assert (Qle_bool js_0_3 (stars_remainder rating) = false) as ->.
    { apply not_true_is_false. intros Hle%Qle_bool_iff.
      unfold js_0_3 in Hle. lra. }
    assert (Qle_bool (stars_remainder rating) js_0_7 = true) as ->.
    { apply Qle_bool_iff. unfold js_0_7. lra. }
    done.
Qed.

(** What [#renderStars] draws for a rating between 0 and 5: the filled
    and half stars are the ones the rounding rule asks for; the run has
    five glyphs unless the rating is rounded up from three full stars or
    fewer, when it has four. *)
Lemma renderStars_glyphs rating :
  (0 <= rating)%Q → (rating <= 5)%Q →
  ∃ l, renderStars rating = Some l
    ∧ count_star Filled l
      = Z.to_nat (stars_fullStars rating + stars_extraFull rating)
    ∧ count_star Half l = (if stars_hasHalf rating then 1 else 0)%nat
    ∧ length l
      = if stars_over rating && (stars_fullStars rating <? 4)
        then 4%nat else 5%nat.
Proof.
  intros H0 H5.
  destruct (stars_fullStars_range rating H0 H5) as [Hlo Hhi].
  destruct (stars_half_over rating H0 H5) as [Hexcl Hfive].
  assert (stars_fullStars rating = 5 → stars_hasHalf rating = false
          ∧ stars_over rating = false) as Hfive' by exact Hfive.
  unfold renderStars, stars_emptyStars, stars_extraFull.
  destruct (stars_hasHalf rating) eqn:Hhalf;
    destruct (stars_over rating) eqn:Hover;
    try (specialize (Hexcl eq_refl); discriminate);
    rewrite !js_repeat_nonneg by lia; simpl;
    eexists; (split; [reflexivity|]);
    rewrite ?count_star_app, ?count_star_cons, ?count_star_replicate,
      ?length_app, ?length_cons, ?length_replicate; simpl;
    destruct (Z.ltb_spec (stars_fullStars rating) 4); simpl;
    repeat split; try lia;
    assert (stars_fullStars rating = 4 ∨ stars_fullStars rating = 5)
      as [Hf|Hf] by lia;
    try (destruct (Hfive' Hf); congruence);
    rewrite Hf; reflexivity.
Qed.

(** C1: at the rating 3.75 (three full stars and a remainder above 0.7)
    [#renderStars] draws four filled stars and nothing else, so the
    display has four glyphs where five are due; the same happens at the
    binary64 number written 3.8. *)
Theorem renderStars_three_quarters_four_glyphs :
  renderStars (15 # 4) = Some [Filled; Filled; Filled; Filled]
  ∧ renderStars (4278419646001971 # 1125899906842624)
    = Some [Filled; Filled; Filled; Filled]
  ∧ stars_fullStars (15 # 4) = 3
  ∧ stars_over (15 # 4) = true
  ∧ stars_emptyStars (15 # 4) = 1
  ∧ Z.max 0 (stars_emptyStars (15 # 4) - stars_extraFull (15 # 4)) = 0.
Proof. repeat split; vm_compute; reflexivity. Qed.

(** ** Theorems: the pagination window *)

Lemma array_from_pages t :
  array_from t (λ i, PageNum (i + 1)) = PageNum <$> seqZ 1 t.
Proof.
  unfold array_from.
  change (seqZ 1 t) with (seqZ (1 + 0) t).
  rewrite <- fmap_add_seqZ, <- list_fmap_compose.
  apply list_fmap_ext. intros _ i _. simpl. f_equal. lia.
Qed.

(** C2: the window of [#generatePageNumbers] for a current page [c] among
    [t] pages: all of 1..t without ellipsis up to seven pages; beyond
    that, the first five pages, the last five pages or the three pages
    around [c], as [c] is at most 4, within 3 of the end, or neither; and
    the three windows the specification lists for ten pages. *)
Theorem generatePageNumbers_window (c t : Z) :
  1 ≤ c ≤ t →
  (t ≤ 7 → generatePageNumbers c t = PageNum <$> seqZ 1 t)
  ∧ (7 < t → c ≤ 4 →
     generatePageNumbers c t
     = [PageNum 1; PageNum 2; PageNum 3; PageNum 4; PageNum 5; Ellipsis;
        PageNum t])
  ∧ (7 < t → t - 3 ≤ c →
     generatePageNumbers c t
     = [PageNum 1; Ellipsis; PageNum (t - 4); PageNum (t - 3);
        PageNum (t - 2); PageNum (t - 1); PageNum t])
  ∧ (7 < t → 4 < c < t - 3 →
     generatePageNumbers c t
     = [PageNum 1; Ellipsis; PageNum (c - 1); PageNum c; PageNum (c + 1);
        Ellipsis; PageNum t])
  ∧ generatePageNumbers 1 10
    = [PageNum 1; PageNum 2; PageNum 3; PageNum 4; PageNum 5; Ellipsis;
       PageNum 10]
  ∧ generatePageNumbers 9 10
    = [PageNum 1; Ellipsis; PageNum 6; PageNum 7; PageNum 8; PageNum 9;
       PageNum 10]
  ∧ generatePageNumbers 5 10
    = [PageNum 1; Ellipsis; PageNum 4; PageNum 5; PageNum 6; Ellipsis;
       PageNum 10].
Proof.
  intros Hc. unfold generatePageNumbers.
  split; [|split; [|split; [|split; [|by repeat split]]]].
  - intros Ht. destruct (Z.leb_spec t 7); [|lia]. apply array_from_pages.
  - intros Ht Hc4. destruct (Z.leb_spec t 7); [lia|].
    by destruct (Z.leb_spec c 4); [|lia].
  - intros Ht Hend. destruct (Z.leb_spec t 7); [lia|].
    destruct (Z.leb_spec c 4); [lia|].
    by destruct (Z.leb_spec (t - 3) c); [|lia].
  - intros Ht Hmid. destruct (Z.leb_spec t 7); [lia|].
    destruct (Z.leb_spec c 4); [lia|].
    by destruct (Z.leb_spec (t - 3) c); [lia|].
Qed.

Lemma generatePageNumbers_window_witness :
  1 ≤ 6 ≤ 12
  ∧ generatePageNumbers 6 12
    = [PageNum 1; Ellipsis; PageNum 5; PageNum 6; PageNum 7; Ellipsis;
       PageNum 12].
Proof.
  assert (1 ≤ 6 ≤ 12) as H by lia.
  split; [exact H|].
  destruct (generatePageNumbers_window 6 12 H) as (_ & _ & _ & Hmid & _).
  apply Hmid; lia.
Defined.

(** C10: beyond seven pages the window has exactly seven entries, starts
    with page 1, ends with the last page, and its page numbers increase
    strictly from left to right. *)
Theorem generatePageNumbers_seven_entries (c t : Z) :
  7 < t → 1 ≤ c ≤ t →
  length (generatePageNumbers c t) = 7%nat
  ∧ head (generatePageNumbers c t) = Some (PageNum 1)
  ∧ last (generatePageNumbers c t) = Some (PageNum t)
  ∧ StronglySorted Z.lt (page_numbers (generatePageNumbers c t)).
Proof.
  intros Ht Hc. unfold generatePageNumbers.
  destruct (Z.leb_spec t 7); [lia|].
  destruct (Z.leb_spec c 4); [|destruct (Z.leb_spec (t - 3) c)];
    (split; [reflexivity|]); (split; [reflexivity|]);
    (split; [reflexivity|]); simpl;
    repeat (constructor; [|repeat (constructor; try lia)]); constructor.
Qed.

Lemma generatePageNumbers_seven_entries_witness :
  length (generatePageNumbers 6 12) = 7%nat
  ∧ head (generatePageNumbers 6 12) = Some (PageNum 1)
  ∧ last (generatePageNumbers 6 12) = Some (PageNum 12)
  ∧ StronglySorted Z.lt (page_numbers (generatePageNumbers 6 12)).
Proof. apply generatePageNumbers_seven_entries; lia. Defined.

(** ** Theorems: binary64 rounding *)

Lemma round_half_even_floor y :
  Qfloor y ≤ round_half_even y ≤ Qfloor y + 1.
Proof.
  unfold round_half_even.
  destruct (y - inject_Z (Qfloor y) ?= 1 # 2)%Q; [|lia..].
  destruct (Z.even (Qfloor y)); lia.
Qed.

Lemma round_half_even_le y N :
  (y <= inject_Z N)%Q → round_half_even y ≤ N.
Proof.
  intros Hy. pose proof (round_half_even_floor y) as [_ Hup].
  assert (Qfloor y ≤ N) as Hf.
  { rewrite <- (Qfloor_Z N). by apply Qfloor_resp_le. }
  destruct (decide (Qfloor y = N)) as [Heq|Hne]; [|lia].
  unfold round_half_even. rewrite Heq.
  assert ((y - inject_Z N ?= 1 # 2)%Q = Lt) as ->; [|lia].
  apply (proj1 (Qlt_alt _ _)). lra.
Qed.

Lemma round_half_even_nonneg y : (0 <= y)%Q → 0 ≤ round_half_even y.
Proof.
  intros Hy. pose proof (round_half_even_floor y) as [Hlo _].
  assert (0 ≤ Qfloor y); [|lia].
  change 0 with (Qfloor 0). by apply Qfloor_resp_le.
Qed.

Lemma round_half_even_whole y n :
  (y == inject_Z n)%Q → round_half_even y = n.
Proof.
  intros Hy. unfold round_half_even.
  assert (Qfloor y = n) as -> by (rewrite Hy; apply Qfloor_Z).
  assert ((y - inject_Z n ?= 1 # 2)%Q = Lt) as ->; [|done].
  apply (proj1 (Qlt_alt _ _)). rewrite Hy. lra.
Qed.

Lemma Qpower2_pos k : (0 < 2 ^ k)%Q.
Proof. by apply Qpower_0_lt. Qed.

Lemma Qpower2_succ k : (2 ^ (k + 1) == 2 * 2 ^ k)%Q.
Proof. rewrite Qpower_plus by done. change (2 ^ 1)%Q with 2%Q. ring. Qed.

Lemma Qpower2_le j k : j ≤ k → (2 ^ j <= 2 ^ k)%Q.
Proof. intros H. apply Qpower_le_compat_l; [done|by vm_compute]. Qed.

Lemma Qpower2_Z k : 0 ≤ k → (inject_Z (2 ^ k) == 2 ^ k)%Q.
Proof. intros H. by rewrite Zpower_Qpower. Qed.

(** [floor_log2] is the exponent of the power of two at or below [q]. *)
Lemma floor_log2_spec q :
  (0 < q)%Q →
  (2 ^ floor_log2 q <= q)%Q ∧ (q < 2 ^ (floor_log2 q + 1))%Q.
Proof.
  intros Hq. unfold floor_log2.
  destruct q as [n d]. simpl Qnum. simpl Qden.
  assert (0 < n) as Hn by (unfold Qlt in Hq; simpl in Hq; lia).
  set (ln := Z.log2 n). set (ld := Z.log2 (Z.pos d)).
  destruct (Z.log2_spec n Hn) as [Hn1 Hn2].
  destruct (Z.log2_spec (Z.pos d) (Pos2Z.is_pos d)) as [Hd1 Hd2].
  fold ln in Hn1, Hn2. fold ld in Hd1, Hd2.
  assert (0 ≤ ln) as Hln by apply Z.log2_nonneg.
  assert (0 ≤ ld) as Hld by apply Z.log2_nonneg.
  rewrite Zle_Qle, Qpower2_Z in Hn1 by done.
  rewrite <- Z.add_1_r, Zlt_Qlt, Qpower2_Z in Hn2 by lia.
  rewrite Zle_Qle, Qpower2_Z in Hd1 by done.
  rewrite <- Z.add_1_r, Zlt_Qlt, Qpower2_Z in Hd2 by lia.
  rewrite Qpower2_succ in Hn2, Hd2.
  assert (n # d == inject_Z n / inject_Z (Z.pos d))%Q as Hnd
    by apply Qmake_Qdiv.
  set (N := inject_Z n) in *. set (D := inject_Z (Z.pos d)) in *.
  assert (0 < D)%Q as HD by (subst D; by rewrite <- (Zlt_Qlt 0)).
  assert (2 ^ (ln - ld) == 2 ^ ln / 2 ^ ld)%Q as Hl
    by (apply Qpower_minus; done).
  pose proof (Qpower2_pos ln) as Hpn. pose proof (Qpower2_pos ld) as Hpd.
  set (A := (2 ^ ln)%Q) in *. set (B := (2 ^ ld)%Q) in *.
  assert (A / B * B == A)%Q as HAB by (field; lra).
  assert (N / D * D == N)%Q as HND by (field; lra).
  set (x := (N / D)%Q) in *. set (y := (A / B)%Q) in *.
  assert (0 <= x)%Q as Hx.
  { subst x. apply Qle_shift_div_l; [done|]. lra. }
  assert (0 <= y)%Q as Hy.
  { subst y. apply Qle_shift_div_l; [done|]. lra. }
  destruct (Qle_bool (2 ^ (ln - ld)) (n # d)) eqn:Hcmp.
  - apply Qle_bool_iff in Hcmp. split; [done|].
    rewrite Qpower2_succ, Hl, Hnd. fold x y. nra.
  - assert (n # d < 2 ^ (ln - ld))%Q as Hlt.
    { apply Qnot_le_lt. intros Hle%Qle_bool_iff. congruence. }
    replace (ln - ld - 1 + 1) with (ln - ld) by lia.
    split; [|done].
    assert (2 ^ (ln - ld) == 2 * 2 ^ (ln - ld - 1))%Q as Hhalf.
    { rewrite <- Qpower2_succ. by replace (ln - ld - 1 + 1) with (ln - ld) by lia. }
    rewrite Hl in Hhalf. fold y in Hhalf. rewrite Hnd. fold x.
    set (h := (2 ^ (ln - ld - 1))%Q) in *. nra.
Qed.

Lemma binary64_zero q : (q == 0)%Q → binary64 q = 0%Q.
Proof.
  intros Hq. unfold binary64.
  by rewrite (proj1 (Qeq_alt q 0) Hq).
Qed.

Lemma binary64_proper q q' : (q == q')%Q → binary64 q = binary64 q'.
Proof.
  intros Hq. unfold binary64.
  assert ((q ?= 0)%Q = (q' ?= 0)%Q) as -> by (by rewrite Hq).
  assert (Qred (Qabs q) = Qred (Qabs q')) as ->; [|done].
  apply Qred_complete. by rewrite Hq.
Qed.

Lemma binary64_positive q :
  (0 < q)%Q →
  (binary64 q
   == inject_Z (binary64_significand q) * 2 ^ binary64_exponent q)%Q.
Proof.
  intros Hq. unfold binary64.
  assert ((q ?= 0)%Q = Gt) as -> by (by apply Qgt_alt).
  by rewrite Qred_correct.
Qed.

Lemma binary64_nonneg q : (0 <= q)%Q → (0 <= binary64 q)%Q.
Proof.
  intros Hq. destruct (Qeq_dec q 0) as [Hz|Hnz].
  { by rewrite (binary64_zero q Hz). }
  assert (0 < q)%Q as Hpos.
  { apply Qle_lteq in Hq as [?|Heq]; [done|]. by destruct Hnz. }
  rewrite (binary64_positive q Hpos).
  apply Qmult_le_0_compat.
  - change 0%Q with (inject_Z 0). rewrite <- Zle_Qle.
    apply round_half_even_nonneg. apply Qle_shift_div_l.
    + apply Qpower2_pos.
    + rewrite Qmult_0_l, Qred_correct. apply Qabs_nonneg.
  - apply Qlt_le_weak, Qpower2_pos.
Qed.

Lemma Qabs_Qred_pos q : (0 < q)%Q → (Qred (Qabs q) == q)%Q.
Proof.
  intros Hq. rewrite Qred_correct. apply Qabs_pos. by apply Qlt_le_weak.
Qed.

Lemma Qpower2_lt_inv j k : (2 ^ j < 2 ^ k)%Q → j < k.
Proof.
  intros H. destruct (Z.lt_ge_cases j k) as [|Hge]; [done|].
  apply Qpower2_le in Hge. lra.
Qed.

(** Rounding does not pass a binary64 number at or above: below a
    number [M * 2^k] with a significand of 53 bits, the result is at
    most that number. *)
Lemma binary64_le q M k :
  2 ^ 52 ≤ M < 2 ^ 53 → -1074 ≤ k →
  (0 < q)%Q → (q <= inject_Z M * 2 ^ k)%Q →
  (binary64 q <= inject_Z M * 2 ^ k)%Q.
Proof.
  intros [HM1 HM2] Hk Hq Hb. rewrite (binary64_positive q Hq).
  unfold binary64_significand, binary64_exponent.
  pose proof (Qabs_Qred_pos q Hq) as Ha.
  set (a := Qred (Qabs q)) in *.
  assert (0 < a)%Q as Hapos by (by rewrite Ha).
  destruct (floor_log2_spec a Hapos) as [HL1 HL2].
  set (L := floor_log2 a) in *.
  rewrite Zle_Qle in HM1. rewrite Zlt_Qlt in HM2.
  change (inject_Z (2 ^ 52)) with ((2:Q) ^ 52)%Q in HM1.
  change (inject_Z (2 ^ 53)) with ((2:Q) ^ 53)%Q in HM2.
  pose proof (Qpower2_pos k) as Hpk.
  assert (L - 52 ≤ k) as HLk.
  { assert (2 ^ L < 2 ^ (53 + k))%Q as Hlt.
    { rewrite (Qpower_plus 2 53 k) by done.
      set (P := (2 ^ k)%Q) in *. set (m := inject_Z M) in *.
      set (t := (2 ^ 53)%Q) in *. set (l := (2 ^ L)%Q) in *.
      rewrite Ha in HL1. nra. }
    apply Qpower2_lt_inv in Hlt. lia. }
  set (e := Z.max (L - 52) (-1074)).
  assert (e ≤ k) as Hek by lia.
  assert (L + 1 ≤ e + 53) as HLe by lia.
  pose proof (Qpower2_pos e) as Hpe.
  assert (a / 2 ^ e * 2 ^ e == a)%Q as Hy by (field; lra).
  set (y := (a / 2 ^ e)%Q) in *.
  destruct (decide (e = k)) as [->|Hne].
  - assert (round_half_even y ≤ M) as Hm.
    { apply round_half_even_le. rewrite Ha in Hy.
      set (P := (2 ^ k)%Q) in *. set (m := inject_Z M) in *. nra. }
    rewrite Zle_Qle in Hm. apply Qmult_le_compat_r; [done|lra].
  - assert (round_half_even y ≤ 2 ^ 53) as Hm.
    { apply round_half_even_le.
      change (inject_Z (2 ^ 53)) with ((2:Q) ^ 53)%Q.
      assert (2 ^ (L + 1) <= 2 ^ (e + 53))%Q as Hle by (by apply Qpower2_le).
      rewrite (Qpower_plus 2 e 53) in Hle by done.
      set (P := (2 ^ e)%Q) in *. set (t := (2 ^ 53)%Q) in *.
      set (l := (2 ^ (L + 1))%Q) in *.
      assert (0 < t)%Q by (subst t; apply Qpower2_pos). nra. }
    rewrite Zle_Qle in Hm.
    change (inject_Z (2 ^ 53)) with ((2:Q) ^ 53)%Q in Hm.
    assert (2 ^ (e + 1) <= 2 ^ k)%Q as Hle by (apply Qpower2_le; lia).
    rewrite Qpower2_succ in Hle.
    assert ((2:Q) ^ 53 == 2 * 2 ^ 52)%Q as H53 by reflexivity.
    set (P := (2 ^ k)%Q) in *. set (E := (2 ^ e)%Q) in *.
    set (m := inject_Z M) in *. set (r := inject_Z (round_half_even y)) in *.
    set (t := (2 ^ 53)%Q) in *. set (u := (2 ^ 52)%Q) in *.
    assert (0 < u)%Q by (subst u; apply Qpower2_pos).
    assert (r * E <= t * E)%Q by (apply Qmult_le_compat_r; lra).
    assert (u * (2 * E) <= u * P)%Q by (apply Qmult_le_l; lra).
    assert (u * P <= m * P)%Q by (apply Qmult_le_compat_r; lra).
    assert (t * E == u * (2 * E))%Q as Hte by (rewrite H53; ring).
    apply (Qle_trans _ (t * E)); [done|]. rewrite Hte.
    by apply (Qle_trans _ (u * P)).
Qed.

(** A whole number below 2^53 is a binary64 number. *)
Lemma binary64_whole n :
  0 ≤ n < 2 ^ 53 → (binary64 (inject_Z n) == inject_Z n)%Q.
Proof.
  intros [Hn0 Hn]. destruct (decide (n = 0)) as [->|Hnz]; [done|].
  assert (0 < inject_Z n)%Q as Hq
    by (change 0%Q with (inject_Z 0); rewrite <- Zlt_Qlt; lia).
  rewrite (binary64_positive _ Hq).
  unfold binary64_significand, binary64_exponent.
  pose proof (Qabs_Qred_pos _ Hq) as Ha.
  set (a := Qred (Qabs (inject_Z n))) in *.
  assert (0 < a)%Q as Hapos by (by rewrite Ha).
  destruct (floor_log2_spec a Hapos) as [HL1 _].
  set (L := floor_log2 a) in *.
  assert (L < 53) as HL.
  { apply Qpower2_lt_inv. rewrite Zlt_Qlt in Hn.
    change (inject_Z (2 ^ 53)) with ((2:Q) ^ 53)%Q in Hn.
    rewrite Ha in HL1. by apply (Qle_lt_trans _ (inject_Z n)). }
  set (e := Z.max (L - 52) (-1074)).
  assert (e ≤ 0) as He by lia.
  pose proof (Qpower2_pos e) as Hpe.
  assert (/ 2 ^ e == 2 ^ (- e))%Q as Hinv by (symmetry; apply Qpower_opp).
  assert (a / 2 ^ e == inject_Z (n * 2 ^ (- e)))%Q as Hy.
  { rewrite inject_Z_mult, Qpower2_Z, Ha by lia.
    unfold Qdiv. by rewrite Hinv. }
  rewrite (round_half_even_whole _ _ Hy).
  rewrite inject_Z_mult, Qpower2_Z, <- Hinv by lia.
  field. lra.
Qed.

(** A quotient of a count by a total it does not exceed, taken to
    percent, stays between 0 and 100 through both roundings; it is 0 for
    a count of 0 and 100 for a count equal to the total. *)
Lemma histogram_percentage_bounds count total :
  0 ≤ count ≤ total → 0 < total →
  (0 <= histogram_percentage count total)%Q
  ∧ (histogram_percentage count total <= 100)%Q.
Proof.
  intros [Hlo Hhi] Hpos. unfold histogram_percentage, js_mul, js_div.
  assert (0 < inject_Z total)%Q as Hpos'
    by (change 0%Q with (inject_Z 0); by rewrite <- Zlt_Qlt).
  assert (0 <= inject_Z count)%Q as Hlo'
    by (change 0%Q with (inject_Z 0); by rewrite <- Zle_Qle).
  assert (inject_Z count <= inject_Z total)%Q as Hhi'
    by (by rewrite <- Zle_Qle).
  assert (0 <= inject_Z count / inject_Z total)%Q as Hq0.
  { apply Qle_shift_div_l; [done|]. by rewrite Qmult_0_l. }
  assert (inject_Z count / inject_Z total <= 1)%Q as Hq1.
  { apply Qle_shift_div_r; [done|]. by rewrite Qmult_1_l. }
  set (q := (inject_Z count / inject_Z total)%Q) in *.
  assert (0 <= binary64 q)%Q as Hx0 by (by apply binary64_nonneg).
  assert (binary64 q <= 1)%Q as Hx1.
  { destruct (Qeq_dec q 0) as [Hz|Hnz].
    { by rewrite (binary64_zero q Hz). }
    assert (0 < q)%Q as Hqpos.
    { apply Qle_lteq in Hq0 as [?|Heq]; [done|]. by destruct Hnz. }
    assert (inject_Z (2 ^ 52) * 2 ^ (-52) == 1)%Q as Hone by (by vm_compute).
    apply (Qle_trans _ (inject_Z (2 ^ 52) * 2 ^ (-52)));
      [|rewrite Hone; apply Qle_refl].
    apply binary64_le; [lia|lia|done|by rewrite Hone]. }
  set (x := binary64 q) in *.
  split; [apply binary64_nonneg, Qmult_le_0_compat; [done|by vm_compute]|].
  assert (x * 100 <= 100)%Q as Hp1.
  { change 100%Q with (1 * 100)%Q at 2. by apply Qmult_le_compat_r. }
  destruct (Qeq_dec (x * 100) 0) as [Hz|Hnz].
  { by rewrite (binary64_zero _ Hz). }
  assert (0 < x * 100)%Q as Hppos.
  { assert (0 <= x * 100)%Q as Hp0
      by (apply Qmult_le_0_compat; [done|by vm_compute]).
    apply Qle_lteq in Hp0 as [?|Heq]; [done|]. by destruct Hnz. }
  assert (inject_Z (100 * 2 ^ 46) * 2 ^ (-46) == 100)%Q as Hall
    by (by vm_compute).
  apply (Qle_trans _ (inject_Z (100 * 2 ^ 46) * 2 ^ (-46)));
    [|rewrite Hall; apply Qle_refl].
  apply binary64_le; [lia|lia|done|by rewrite Hall].
Qed.

Lemma histogram_percentage_zero total : histogram_percentage 0 total = 0%Q.
Proof.
  unfold histogram_percentage, js_mul, js_div.
  rewrite (binary64_zero (inject_Z 0 / inject_Z total)).
  - by apply binary64_zero.
  - unfold Qdiv. by rewrite Qmult_0_l.
Qed.

Lemma histogram_percentage_full total :
  total ≠ 0 → histogram_percentage total total = 100%Q.
Proof.
  intros Ht. unfold histogram_percentage, js_mul, js_div.
  rewrite (binary64_proper (inject_Z total / inject_Z total) 1); [done|].
  apply Qmult_inv_r. change 0%Q with (inject_Z 0).
  by rewrite inject_Z_injective.
Qed.

(** With the total read as 1, the width is the count times 100, as long
    as that is a whole number binary64 holds. *)
Lemma histogram_percentage_one count :
  0 ≤ count → count * 100 < 2 ^ 53 →
  (histogram_percentage count 1 == inject_Z count * 100)%Q.
Proof.
  intros Hlo Hhi. unfold histogram_percentage, js_mul, js_div.
  rewrite (binary64_proper (inject_Z count / inject_Z 1) (inject_Z count))
    by (change (inject_Z 1) with 1%Q; field).
  rewrite (binary64_proper (binary64 (inject_Z count) * 100)
             (inject_Z (count * 100))).
  - apply (Qeq_trans _ (inject_Z (count * 100))).
    + apply binary64_whole. lia.
    + by rewrite inject_Z_mult.
  - rewrite binary64_whole by lia. by rewrite inject_Z_mult.
Qed.

(** The rounding is the code's: 7 reviews of 100 give a bar of
    7.000000000000001 percent, not of 7. *)
Lemma histogram_percentage_rounds :
  histogram_percentage 7 100 = (7881299347898369 # 1125899906842624)%Q
  ∧ histogram_percentage 93 100 = 93%Q
  ∧ histogram_percentage 1 3 = (2345624805922133 # 70368744177664)%Q.
Proof. by vm_compute. Qed.

(** ** Theorems: the histogram *)

Lemma histogram_total_nonzero b : histogram_total b ≠ 0.
Proof. unfold histogram_total. destruct (Z.eqb_spec (total_review b) 0); lia. Qed.

Lemma histogram_total_spec b :
  (total_review b = 0 → histogram_total b = 1)
  ∧ (total_review b ≠ 0 → histogram_total b = total_review b).
Proof.
  unfold histogram_total.
  destruct (Z.eqb_spec (total_review b) 0); split; intros; congruence.
Qed.

(** C8, as stated, fails: with a total of zero and a count of three for
    five stars, the five-star bar is 300% wide, not 0%. *)
Lemma histogram_zero_total_bar_not_zero :
  let s := set_bottomline (Some inconsistent_summary) (initial None None) in
  (total_review <$> bottomline s) = Some 0
  ∧ (row_width <$> (renderHistogram s ≫= λ h, head (rows h))) = Some 300%Q
  ∧ ¬ (300 == 0)%Q.
Proof. split; [reflexivity|]. split; [by vm_compute|]. by intros ?. Qed.

(** C8, amended: when the summary has a distribution, the histogram has
    one row per star value from 5 down to 1; the count of a row is the
    distribution's entry for that star, 0 when it has none; the width of
    the bar is the binary64 value of (count/total)*100 (the quotient
    rounded, then the product), where a total of zero is replaced by 1,
    so the divisor is never zero; for a total of zero the width is
    count*100 percent (for a count from 0 up to 2^53/100, which binary64
    holds exactly), hence 0% for a star whose count is zero. *)
Theorem renderHistogram_widths s b distribution :
  bottomline s = Some b →
  star_distribution b = Some distribution →
  ∃ h, renderHistogram s = Some h
    ∧ row_star <$> rows h = [5; 4; 3; 2; 1]
    ∧ histogram_total b ≠ 0
    ∧ (total_review b = 0 → histogram_total b = 1)
    ∧ (total_review b ≠ 0 → histogram_total b = total_review b)
    ∧ ∀ row, row ∈ rows h →
        row_count row = default 0 (distribution !! pretty (row_star row))
        ∧ row_width row
          = js_mul
              (js_div (inject_Z (row_count row))
                 (inject_Z (histogram_total b)))
              100
        ∧ (total_review b = 0 →
           (0 ≤ row_count row → row_count row * 100 < 2 ^ 53 →
            (row_width row == inject_Z (row_count row) * 100)%Q)
           ∧ (row_count row = 0 → row_width row = 0%Q)).
Proof.
  intros Hb Hd. unfold renderHistogram. rewrite Hb. simpl. rewrite Hd. simpl.
  eexists. split; [reflexivity|]. simpl.
  split; [reflexivity|]. split; [apply histogram_total_nonzero|].
  split; [apply histogram_total_spec|]. split; [apply histogram_total_spec|].
  intros row Hrow.
  assert (row_count row = histogram_count distribution (row_star row)
          ∧ row_width row
            = histogram_percentage (row_count row) (histogram_total b))
    as [Hcount Hwidth].
  { repeat (apply elem_of_cons in Hrow as [->|Hrow]; [by split|]).
    by apply elem_of_nil in Hrow. }
  split; [exact Hcount|]. split; [exact Hwidth|].
  intros Hzero. rewrite Hwidth.
  destruct (histogram_total_spec b) as [Hone _]. rewrite (Hone Hzero).
  split.
  - apply histogram_percentage_one.
  - intros ->. apply histogram_percentage_zero.
Qed.

Lemma renderHistogram_widths_witness :
  ∃ h, renderHistogram
         (set_bottomline (Some inconsistent_summary) (initial None None))
       = Some h
    ∧ row_star <$> rows h = [5; 4; 3; 2; 1].
Proof.
  destruct (renderHistogram_widths
              (set_bottomline (Some inconsistent_summary) (initial None None))
              inconsistent_summary {[ "5" := 3 ]} eq_refl eq_refl)
    as (h & Hh & Hstars & _).
  exists h. by split.
Defined.

(** ** Theorems: the fetch controller *)

Lemma fetchReviews_exec s :
  exec fetchReviews s
  = if missing_identifier s
    then (s, [SetInnerHTML (ErrorView "Missing app-key or product-id attribute")])
    else (fetching s,
          abort_effects s
          ++ [SetInnerHTML (MainView BodyLoading);
              FetchListing (buildApiUrl s) (controllers s)]).
Proof.
  unfold exec, fetchReviews, abort_current, abort_effects, mbind, M_bind, get.
  destruct (missing_identifier s); [reflexivity|].
  destruct (abortController s); reflexivity.
Qed.

Lemma fetchReviews_issues s :
  appKey s ≠ EmptyString → productId s ≠ EmptyString →
  exec fetchReviews s
  = (fetching s,
     abort_effects s
     ++ [SetInnerHTML (MainView BodyLoading);
         FetchListing (buildApiUrl s) (controllers s)]).
Proof.
  intros Hk Hp. rewrite fetchReviews_exec. unfold missing_identifier.
  by rewrite !bool_decide_eq_false_2.
Qed.

(** [#fetchReviews] leaves the query, the listing and the voted set as
    they are. *)
Lemma fetchReviews_keeps s :
  let s' := (exec fetchReviews s).1 in
  currentPage s' = currentPage s
  ∧ currentStarFilter s' = currentStarFilter s
  ∧ currentSort s' = currentSort s
  ∧ currentDirection s' = currentDirection s
  ∧ listing s' = listing s
  ∧ votedReviews s' = votedReviews s.
Proof.
  rewrite fetchReviews_exec.
  by destruct (missing_identifier s).
Qed.

Lemma listing_requests_app es1 es2 :
  listing_requests (es1 ++ es2) = listing_requests es1 ++ listing_requests es2.
Proof. apply omap_app. Qed.

Lemma listing_requests_abort s : listing_requests (abort_effects s) = [].
Proof. unfold abort_effects. by destruct (abortController s). Qed.

(** With both identifiers set, [#fetchReviews] issues exactly one listing
    request, for the query the state holds. *)
Lemma fetchReviews_requests s :
  appKey s ≠ EmptyString → productId s ≠ EmptyString →
  listing_requests (exec fetchReviews s).2 = [buildApiUrl s].
Proof.
  intros Hk Hp. rewrite fetchReviews_issues by done. simpl.
  by rewrite listing_requests_app, listing_requests_abort.
Qed.

(** C5: with the application key or the product identifier missing,
    [#fetchReviews] writes the error view and returns: every field is as
    it was (the listing and the loading flag among them) and no request
    is issued. *)
Theorem fetchReviews_missing_identifier s :
  appKey s = EmptyString ∨ productId s = EmptyString →
  exec fetchReviews s
  = (s, [SetInnerHTML (ErrorView "Missing app-key or product-id attribute")]).
Proof.
  intros H. rewrite fetchReviews_exec. unfold missing_identifier.
  destruct H as [-> | ->]; [done|].
  by rewrite orb_true_r.
Qed.

Lemma fetchReviews_missing_identifier_witness :
  exec fetchReviews (initial None (Some "sku-1"))
  = (initial None (Some "sku-1"),
     [SetInnerHTML (ErrorView "Missing app-key or product-id attribute")]).
Proof. apply fetchReviews_missing_identifier. left. reflexivity. Defined.

(** ** Theorems: sort, filter and pagination controls *)

Lemma exec_modify {A} (f : State → State) (m : M A) s :
  exec (modify f;; m) s = exec m (f s).
Proof.
  unfold exec, mbind, M_bind, modify.
  by destruct (m (f s)) as [[a s'] es].
Qed.

Lemma exec_then_emit (m : M unit) e s :
  exec (m;; emit e) s = ((exec m s).1, (exec m s).2 ++ [e]).
Proof.
  unfold exec, mbind, M_bind, emit.
  by destruct (m s) as [[a s'] es].
Qed.

(** The state in which [handleSort] refetches. *)
Lemma handleSort_exec value s :
  exec (handleSort (Some value)) s
  = exec fetchReviews
      (set_currentPage 1
         (set_currentDirection (js_split "-" value !! 1%nat)
            (set_currentSort
               (default EmptyString (js_split "-" value !! 0%nat)) s))).
Proof. unfold handleSort. by rewrite !exec_modify. Qed.

(** The filter [filterByStar] leaves: none when the star is the active
    one, the star otherwise. *)
Lemma filterByStar_exec star s :
  exec (filterByStar star) s
  = exec fetchReviews
      (set_currentPage 1
         (set_currentStarFilter
            (if bool_decide (currentStarFilter s = Some star)
             then None else Some star) s)).
Proof.
  unfold filterByStar.
  transitivity
    (exec (modify (set_currentStarFilter
                     (if bool_decide (currentStarFilter s = Some star)
                      then None else Some star));;
           modify (set_currentPage 1);; fetchReviews) s).
  - unfold exec, mbind, M_bind, get, modify.
    destruct (bool_decide (currentStarFilter s = Some star));
      by destruct (fetchReviews _) as [[u s'] es].
  - by rewrite !exec_modify.
Qed.

Lemma clearStarFilter_exec s :
  exec clearStarFilter s
  = exec fetchReviews (set_currentPage 1 (set_currentStarFilter None s)).
Proof. unfold clearStarFilter. by rewrite !exec_modify. Qed.

(** C6: [handleSort], [filterByStar] and [clearStarFilter] each put the
    current page back to 1 and then call [#fetchReviews], which with both
    identifiers set issues one listing request, for page 1 and the new
    sort or filter; [filterByStar] with the active star leaves no filter,
    with another star leaves that star as the filter. *)
Theorem sort_and_filter_reset_page s :
  (∀ value,
     let s' := (exec (handleSort (Some value)) s).1 in
     currentPage s' = 1
     ∧ currentSort s' = default EmptyString (js_split "-" value !! 0%nat)
     ∧ currentDirection s' = js_split "-" value !! 1%nat
     ∧ exec (handleSort (Some value)) s
       = exec fetchReviews
           (set_currentPage 1
              (set_currentDirection (currentDirection s')
                 (set_currentSort (currentSort s') s)))
     ∧ (appKey s ≠ EmptyString → productId s ≠ EmptyString →
        ∃ url, listing_requests (exec (handleSort (Some value)) s).2 = [url]
          ∧ url_page url = 1 ∧ url_sort url = currentSort s'))
  ∧ (∀ star,
       let s' := (exec (filterByStar star) s).1 in
       currentPage s' = 1
       ∧ (currentStarFilter s = Some star → currentStarFilter s' = None)
       ∧ (currentStarFilter s ≠ Some star → currentStarFilter s' = Some star)
       ∧ exec (filterByStar star) s
         = exec fetchReviews
             (set_currentPage 1
                (set_currentStarFilter (currentStarFilter s') s))
       ∧ (appKey s ≠ EmptyString → productId s ≠ EmptyString →
          ∃ url, listing_requests (exec (filterByStar star) s).2 = [url]
            ∧ url_page url = 1 ∧ url_star url = currentStarFilter s'))
  ∧ (let s' := (exec clearStarFilter s).1 in
     currentPage s' = 1
     ∧ currentStarFilter s' = None
     ∧ exec clearStarFilter s
       = exec fetchReviews (set_currentPage 1 (set_currentStarFilter None s))
     ∧ (appKey s ≠ EmptyString → productId s ≠ EmptyString →
        ∃ url, listing_requests (exec clearStarFilter s).2 = [url]
          ∧ url_page url = 1 ∧ url_star url = None)).
Proof.
  split; [|split].
  - intros value s'. subst s'. rewrite handleSort_exec.
    set (s0 := set_currentPage 1 _).
    destruct (fetchReviews_keeps s0) as (-> & _ & -> & -> & _).
    do 4 (split; [reflexivity|]).
    intros Hk Hp. exists (buildApiUrl s0).
    split; [by apply fetchReviews_requests|by split].
  - intros star s'. subst s'. rewrite filterByStar_exec.
    set (s0 := set_currentPage 1 _).
    destruct (fetchReviews_keeps s0) as (-> & -> & _).
    split; [reflexivity|]. split; [|split; [|split]].
    + intros H. subst s0. simpl. by rewrite bool_decide_eq_true_2.
    + intros H. subst s0. simpl. by rewrite bool_decide_eq_false_2.
    + reflexivity.
    + intros Hk Hp. exists (buildApiUrl s0).
      split; [by apply fetchReviews_requests|by split].
  - intros s'. subst s'. rewrite clearStarFilter_exec.
    set (s0 := set_currentPage 1 _).
    destruct (fetchReviews_keeps s0) as (-> & -> & _).
    do 3 (split; [reflexivity|]).
    intros Hk Hp. exists (buildApiUrl s0).
    split; [by apply fetchReviews_requests|by split].
Qed.

Lemma sort_and_filter_reset_page_witness :
  let s := set_currentPage 3
             (set_currentStarFilter (Some 4)
                (initial (Some "app") (Some "sku"))) in
  currentPage (exec (filterByStar 4) s).1 = 1
  ∧ currentStarFilter (exec (filterByStar 4) s).1 = None
  ∧ currentStarFilter (exec (filterByStar 2) s).1 = Some 2
  ∧ ∃ url, listing_requests (exec (handleSort (Some "score-asc")) s).2 = [url]
      ∧ url_page url = 1
      ∧ url_sort url = currentSort (exec (handleSort (Some "score-asc")) s).1.
Proof.
  intros s.
  destruct (sort_and_filter_reset_page s) as (Hsort & Hfilter & _).
  destruct (Hfilter 4) as (Hpage & Hclear & _).
  destruct (Hfilter 2) as (_ & _ & Hset & _).
  destruct (Hsort "score-asc") as (_ & _ & _ & _ & Hreq).
  split; [exact Hpage|].
  split; [apply Hclear; reflexivity|].
  split; [apply Hset; discriminate|].
  apply Hreq; discriminate.
Defined.

Lemma page_count_ceiling p :
  (inject_Z (page_count p - 1) < inject_Z (total p) / inject_Z perPage)%Q
  ∧ (inject_Z (total p) / inject_Z perPage <= inject_Z (page_count p))%Q.
Proof.
  unfold page_count. split.
  - apply Qceiling_lt.
  - apply Qle_ceiling.
Qed.

Lemma goToPage_exec p s :
  exec (goToPage p) s
  = if (p <? 1) || (totalPages s <? p) then (s, [])
    else ((exec fetchReviews (set_currentPage p s)).1,
          (exec fetchReviews (set_currentPage p s)).2 ++ [ScrollIntoView]).
Proof.
  destruct ((p <? 1) || (totalPages s <? p)) eqn:Hout.
  - unfold exec, goToPage, mbind, M_bind, get. by rewrite Hout.
  - rewrite <- exec_modify, <- exec_then_emit.
    unfold exec, goToPage, mbind, M_bind, get, modify, emit. rewrite Hout.
    by destruct (fetchReviews _) as [[u s'] es].
Qed.

(** C7: with [totalPages] the rounded-up quotient of the total by the
    page size, or 1 without pagination data, [goToPage p] for [p] outside
    1..totalPages changes no field and has no effect (no request, no
    scroll); for [p] inside, it sets the current page to [p], calls
    [#fetchReviews] and then scrolls the component into view. *)
Theorem goToPage_within_pages s p :
  (pagination s = None → totalPages s = 1)
  ∧ (∀ pg, pagination s = Some pg →
       (inject_Z (totalPages s - 1) < inject_Z (total pg) / inject_Z perPage)%Q
       ∧ (inject_Z (total pg) / inject_Z perPage <= inject_Z (totalPages s))%Q)
  ∧ (p < 1 ∨ totalPages s < p → exec (goToPage p) s = (s, []))
  ∧ (1 ≤ p ≤ totalPages s →
     exec (goToPage p) s
     = ((exec fetchReviews (set_currentPage p s)).1,
        (exec fetchReviews (set_currentPage p s)).2 ++ [ScrollIntoView])
     ∧ currentPage (exec (goToPage p) s).1 = p
     ∧ (appKey s ≠ EmptyString → productId s ≠ EmptyString →
        ∃ url, listing_requests (exec (goToPage p) s).2 = [url]
          ∧ url_page url = p)).
Proof.
  split; [|split; [|split]].
  - unfold totalPages. by intros ->.
  - unfold totalPages. intros pg ->. apply page_count_ceiling.
  - intros Hout. rewrite goToPage_exec.
    destruct (Z.ltb_spec p 1); [done|].
    destruct (Z.ltb_spec (totalPages s) p); [done|lia].
  - intros Hin. rewrite goToPage_exec.
    destruct (Z.ltb_spec p 1); [lia|].
    destruct (Z.ltb_spec (totalPages s) p); [lia|]. simpl.
    split; [reflexivity|].
    destruct (fetchReviews_keeps (set_currentPage p s)) as (Hpage & _).
    split; [exact Hpage|].
    intros Hk Hp. exists (buildApiUrl (set_currentPage p s)).
    rewrite listing_requests_app, app_nil_r.
    split; [by apply fetchReviews_requests|reflexivity].
Qed.

Lemma goToPage_within_pages_witness :
  let s := set_pagination (Some {| page := 1; per_page := 10; total := 95 |})
             (initial (Some "app") (Some "sku")) in
  exec (goToPage 11) s = (s, [])
  ∧ exec (goToPage 0) s = (s, [])
  ∧ currentPage (exec (goToPage 10) s).1 = 10
  ∧ ∃ url, listing_requests (exec (goToPage 10) s).2 = [url]
      ∧ url_page url = 10.
Proof.
  intros s.
  destruct (goToPage_within_pages s 11) as (_ & _ & Hhigh & _).
  destruct (goToPage_within_pages s 0) as (_ & _ & Hlow & _).
  destruct (goToPage_within_pages s 10) as (_ & _ & _ & Hin).
  assert (totalPages s = 10) as Htotal by reflexivity.
  split; [apply Hhigh; right; rewrite Htotal; lia|].
  split; [apply Hlow; left; lia|].
  destruct Hin as (_ & Hpage & Hreq); [rewrite Htotal; lia|].
  split; [exact Hpage|].
  apply Hreq; discriminate.
Defined.

(** ** Theorems: voting *)

Lemma voteHelpful_exec data s :
  exec (voteHelpful data) s
  = if bool_decide (reviewId data ∈ votedReviews s) then (s, [])
    else
      (set_reviews (vote_on (reviewId data) (vote data) (reviews s))
         (set_votedReviews ({[reviewId data]} ∪ votedReviews s) s),
       [StorageSetItem ({[reviewId data]} ∪ votedReviews s);
        SetInnerHTML (MainView (render_body s));
        FetchVote (reviewId data) (vote data) (appKey s)]).
Proof.
  unfold exec, voteHelpful, mbind, M_bind, get.
  by destruct (bool_decide (reviewId data ∈ votedReviews s)).
Qed.

(** Whatever [voteHelpful] does, the review it names is voted on
    afterwards. *)
Lemma voteHelpful_records data s :
  reviewId data ∈ votedReviews (exec (voteHelpful data) s).1.
Proof.
  rewrite voteHelpful_exec. case_bool_decide; simpl; set_solver.
Qed.

(** On a review of the voted set [voteHelpful] returns at its first
    line. *)
Lemma voteHelpful_member s data :
  reviewId data ∈ votedReviews s → exec (voteHelpful data) s = (s, []).
Proof.
  intros Hin. rewrite voteHelpful_exec. by rewrite bool_decide_eq_true_2.
Qed.

(** C4: [voteHelpful] on a review already in the voted set returns at
    once: no field changes (no counter, not the voted set) and no effect
    is logged (no storage write, no request); so a second vote on a
    review, whatever the first one did, changes nothing. *)
Theorem voteHelpful_voted_is_noop s data :
  (reviewId data ∈ votedReviews s → exec (voteHelpful data) s = (s, []))
  ∧ (∀ again, reviewId again = reviewId data →
       exec (voteHelpful again) (exec (voteHelpful data) s).1
       = ((exec (voteHelpful data) s).1, [])).
Proof.
  split; [apply voteHelpful_member|].
  intros again Hsame. apply voteHelpful_member.
  rewrite Hsame. apply voteHelpful_records.
Qed.

Lemma voteHelpful_voted_is_noop_witness :
  let s := set_votedReviews {[ 41 ]} (initial (Some "app") (Some "sku")) in
  exec (voteHelpful {| reviewId := 41; vote := "up" |}) s = (s, []).
Proof.
  intros s.
  apply (voteHelpful_voted_is_noop s {| reviewId := 41; vote := "up" |}).
  by vm_compute.
Defined.

(** ** Theorems: the voted set in a session *)

Lemma self_call m sys : self (call m sys).1 = (exec m (self sys)).1.
Proof. unfold call. by destruct (exec m (self sys)). Qed.

Lemma host_call m sys :
  host (call m sys).1 = host_effects (host sys) (exec m (self sys)).2.
Proof. unfold call. by destruct (exec m (self sys)). Qed.

Lemma effects_call m sys : (call m sys).2 = (exec m (self sys)).2.
Proof. unfold call. by destruct (exec m (self sys)). Qed.

Ltac run_method :=
  unfold exec, retryFetch, disconnectedCallback, abort_current, toggleForm,
    setFormRating, submitReview, submitReview_settled, submitReview_timeout,
    openImageModal, closeImageModal, render, renderError, saveVotedReviews,
    fetchReviews_response, fetchReviews_body, fetchReviews_catch,
    mbind, M_bind, mret, M_ret, get, modify, emit;
  simpl; repeat case_match; simpl in *; simplify_eq.

(** What the continuations of [#fetchReviews] do: they keep the query,
    the voted set and the controller, and log no request. *)
Lemma fetchReviews_response_keeps r s :
  let '(more, s', es) := fetchReviews_response r s in
  votedReviews s' = votedReviews s
  ∧ abortController s' = abortController s
  ∧ controllers s' = controllers s
  ∧ ∀ h, host_effects h es = h.
Proof. run_method; done. Qed.

(** What [#render] raises is the [RangeError] of [repeat]. *)
Lemma render_raises_range s error :
  render_raises s = Some error →
  ∃ message, error = JsError "RangeError" message.
Proof.
  unfold render_raises. intros Hhead.
  assert (error ∈ omap stars_raise (rendered_ratings s)) as Hin.
  { destruct (omap stars_raise (rendered_ratings s)) as [|x l]; [done|].
    injection Hhead as ->. by left. }
  apply list_elem_of_omap in Hin as (rating & _ & Hraise).
  unfold stars_raise in Hraise.
  destruct (_ <? 0); [|done]. injection Hraise as <-. by eexists.
Qed.

(** An accepted response: the fields are assigned first, then [#render]
    runs, and what it raises is drawn by the [catch] clause. *)
Lemma fetchReviews_body_accepted data s :
  api_failure data = None →
  exec (fetchReviews_body (Fulfilled data)) s
  = (listed data s, [SetInnerHTML (listed_view (listed data s))]).
Proof.
  intros Hok. unfold listed_view.
  destruct (render_raises (listed data s)) as [error|] eqn:Hraise.
  - destruct (render_raises_range _ _ Hraise) as [message ->].
    unfold listed in *.
    unfold exec, fetchReviews_body, mbind, M_bind, get, modify in *.
    rewrite Hok. cbv beta iota. by rewrite Hraise.
  - unfold listed in *.
    unfold exec, fetchReviews_body, mbind, M_bind, get, modify in *.
    rewrite Hok. cbv beta iota. by rewrite Hraise.
Qed.

Lemma fetchReviews_body_keeps r s :
  let '(s', es) := exec (fetchReviews_body r) s in
  votedReviews s' = votedReviews s
  ∧ abortController s' = abortController s
  ∧ controllers s' = controllers s
  ∧ ∀ h, host_effects h es = h.
Proof.
  destruct r as [data|e]; [destruct (api_failure data) eqn:Hok|].
  - unfold exec, fetchReviews_body. rewrite Hok. by run_method.
  - by rewrite fetchReviews_body_accepted.
  - by run_method.
Qed.

Lemma fetchReviews_body_page r s :
  currentPage (exec (fetchReviews_body r) s).1 = currentPage s.
Proof.
  destruct r as [data|e]; [destruct (api_failure data) eqn:Hok|].
  - unfold exec, fetchReviews_body. rewrite Hok. by run_method.
  - by rewrite fetchReviews_body_accepted.
  - by run_method.
Qed.

Lemma fetchReviews_voted s :
  votedReviews (exec fetchReviews s).1 = votedReviews s.
Proof. apply fetchReviews_keeps. Qed.

(** One step of a session, the startup loader apart, keeps every review
    of the voted set. *)
Lemma step_votedReviews sys ev :
  is_startup ev = false →
  votedReviews (self sys) ⊆ votedReviews (self (step sys ev).1).
Proof.
  intros Hev. destruct ev; try discriminate; simpl; rewrite ?self_call.
  - by run_method.
  - unfold retryFetch. by rewrite fetchReviews_voted.
  - destruct target as [value|]; [|done].
    by rewrite handleSort_exec, fetchReviews_voted.
  - by rewrite filterByStar_exec, fetchReviews_voted.
  - by rewrite clearStarFilter_exec, fetchReviews_voted.
  - rewrite goToPage_exec.
    destruct ((p <? 1) || (totalPages (self sys) <? p)); [done|]. simpl.
    by rewrite fetchReviews_voted.
  - rewrite voteHelpful_exec. case_bool_decide; simpl; set_solver.
  - by run_method.
  - by run_method.
  - by run_method.
  - by run_method.
  - by run_method.
  - destruct (pending (host sys) !! signal) as [[]|]; [|done..].
    pose proof (fetchReviews_response_keeps
                  (settle (host sys) signal r) (self sys)) as H.
    destruct (fetchReviews_response _ _) as [[more s'] es].
    destruct H as (H & _). simpl. by rewrite H.
  - destruct (pending (host sys) !! signal) as [[]|]; [done| |done].
    pose proof (fetchReviews_body_keeps
                  (settle (host sys) signal r) (self sys)) as H.
    destruct (exec _ _) as [s' es].
    destruct H as (H & _). simpl. by rewrite H.
  - destruct (submitting (host sys)); [done|]. rewrite self_call.
    by run_method.
  - destruct (timers (host sys)); [done|]. rewrite self_call.
    by run_method.
Qed.

(** C9, as stated, fails: [connectedCallback] runs [#loadVotedReviews]
    each time the element is connected, and the loader replaces the set
    by the stored list.  A vote on review 7 puts it in the set; the
    element is then moved in the document (disconnected and connected
    again) while the stored entry lists review 41 only (the entry is
    shared by every instance on the origin, and a failing [setItem] is
    swallowed); after that 7 is not in the set, and once the listing is
    drawn again [voteHelpful] counts a vote for it once more and sends
    another request. *)
Lemma votedReviews_shrinks_on_reconnect :
  let ok := Fulfilled {| resp_ok := true; resp_status := 200 |} in
  let ballot := {| reviewId := 7; vote := "up" |} in
  let voted := run (boot (Some "app") (Some "sku"))
                 [Connected None; ListingResponse 0 ok;
                  ListingBody 0 (Fulfilled sample_listing);
                  VoteHelpful ballot] in
  let moved := run voted
                 [Disconnected; Connected (Some [41]); ListingResponse 1 ok;
                  ListingBody 1 (Fulfilled sample_listing)] in
  7 ∈ votedReviews (self voted)
  ∧ exec (voteHelpful ballot) (self voted) = (self voted, [])
  ∧ votedReviews (self moved) = {[ 41 ]}
  ∧ (7 ∉ votedReviews (self moved))
  ∧ ¬ votedReviews (self voted) ⊆ votedReviews (self moved)
  ∧ votedReviews (exec (voteHelpful ballot) (self moved)).1 = {[ 7; 41 ]}
  ∧ id <$> reviews (exec (voteHelpful ballot) (self moved)).1 = [7]
  ∧ votes_up <$> reviews (exec (voteHelpful ballot) (self moved)).1
    = [Some 1]
  ∧ last (exec (voteHelpful ballot) (self moved)).2
    = Some (FetchVote 7 "up" "app").
Proof.
  intros ok ballot voted moved.
  split; [by vm_compute|].
  split; [vm_compute; reflexivity|].
  split; [vm_compute; reflexivity|].
  split; [apply (bool_decide_unpack _); vm_compute; exact I|].
  split; [apply (bool_decide_unpack _); vm_compute; exact I|].
  repeat split; vm_compute; reflexivity.
Qed.

(** C9, amended: over every sequence of operations of a session other
    than connecting the element again (user actions: retry, sort, filter,
    paginate, vote, the form, the lightbox; disconnecting; settled
    listing and submit promises; the form's timer) the voted set only
    grows, and a review that is in it stays rejected by [voteHelpful],
    which returns without a change or an effect.  Connecting the element
    runs the startup loader, which replaces the set by the stored
    list. *)
Theorem votedReviews_never_shrinks sys evs :
  Forall (λ ev, is_startup ev = false) evs →
  votedReviews (self sys) ⊆ votedReviews (self (run sys evs))
  ∧ ∀ data, reviewId data ∈ votedReviews (self sys) →
      exec (voteHelpful data) (self (run sys evs))
      = (self (run sys evs), []).
Proof.
  intros Hevs.
  assert (votedReviews (self sys) ⊆ votedReviews (self (run sys evs)))
    as Hgrows.
  { revert sys. induction Hevs as [|ev evs Hev _ IH]; intros sys; [done|].
    unfold run. simpl. etrans; [by apply step_votedReviews|]. apply IH. }
  split; [exact Hgrows|].
  intros data Hin. apply voteHelpful_member. by apply Hgrows.
Qed.

Lemma votedReviews_never_shrinks_witness :
  let sys := mkSystem
               (set_votedReviews {[ 41 ]} (initial (Some "app") (Some "sku")))
               no_host in
  let evs := [VoteHelpful {| reviewId := 7; vote := "up" |};
              HandleSort (Some "date-asc"); ToggleForm; Disconnected] in
  votedReviews (self sys) ⊆ votedReviews (self (run sys evs))
  ∧ exec (voteHelpful {| reviewId := 41; vote := "down" |})
      (self (run sys evs))
    = (self (run sys evs), []).
Proof.
  intros sys evs.
  assert (Forall (λ ev, is_startup ev = false) evs) as Hevs
    by (repeat constructor).
  destruct (votedReviews_never_shrinks sys evs Hevs) as [Hgrows Hnoop].
  split; [exact Hgrows|].
  apply Hnoop. by vm_compute.
Defined.

(** ** Theorems: overlapping listing requests *)

Lemma abort_effects_host s h :
  host_effects h (abort_effects s)
  = mkHost (abort_set s ∪ aborted h) (pending h) (issued h) (submitting h)
      (timers h).
Proof.
  unfold abort_effects, abort_set. destruct (abortController s); simpl.
  - reflexivity.
  - rewrite (left_id_L ∅ (∪)). by destruct h.
Qed.

Lemma fetchReviews_controls s h :
  controls s (exec fetchReviews s).1 h
    (host_effects h (exec fetchReviews s).2).
Proof.
  rewrite fetchReviews_exec.
  destruct (missing_identifier s).
  - by apply controls_quiet.
  - simpl. unfold host_effects. rewrite foldl_app.
    fold (host_effects h (abort_effects s)). rewrite abort_effects_host.
    by apply controls_fetch.
Qed.

(** A method that first changes fields other than the controller and
    then behaves like [m] is controlled like [m]. *)
Lemma controls_after s0 s s' h h' :
  abortController s0 = abortController s →
  controllers s0 = controllers s →
  controls s0 s' h h' → controls s s' h h'.
Proof.
  intros Ha Hc. unfold abort_set.
  destruct 1 as [? ? ? ? ?|? ? Hab ? ?|? ? Hab ? ?].
  - apply controls_quiet; congruence.
  - apply controls_abort; try congruence.
    rewrite Hab. unfold abort_set. by rewrite Ha.
  - apply controls_fetch; try congruence.
    rewrite Hab. unfold abort_set. by rewrite Ha.
Qed.

Lemma connectedCallback_exec stored s :
  exec (connectedCallback stored) s
  = exec fetchReviews
      (match stored with
       | Some ids => set_votedReviews (list_to_set ids) s
       | None => s
       end).
Proof.
  unfold connectedCallback, loadVotedReviews.
  destruct stored; [by rewrite exec_modify|].
  unfold exec, mbind, M_bind, mret, M_ret.
  by destruct (fetchReviews s) as [[u s'] es].
Qed.

(** The startup loader replaces the voted set by the stored list. *)
Lemma connectedCallback_voted ids s :
  votedReviews (exec (connectedCallback (Some ids)) s).1 = list_to_set ids.
Proof. by rewrite connectedCallback_exec, fetchReviews_voted. Qed.

(** Every event that is not the settling of a listing request runs a
    method that is quiet, aborts, or refetches. *)
Lemma step_controls sys ev :
  settles ev = None →
  controls (self sys) (self (step sys ev).1) (host sys) (host (step sys ev).1).
Proof.
  intros Hev. destruct ev; try discriminate; simpl;
    rewrite ?self_call, ?host_call.
  - rewrite connectedCallback_exec.
    eapply controls_after; [| |apply fetchReviews_controls]; by destruct stored.
  - unfold disconnectedCallback.
    replace (exec abort_current (self sys))
      with (self sys, abort_effects (self sys)).
    + simpl. rewrite abort_effects_host. by apply controls_abort.
    + unfold exec, abort_current, abort_effects, mbind, M_bind, get.
      by destruct (abortController (self sys)).
  - apply fetchReviews_controls.
  - destruct target as [value|]; [|by apply controls_quiet].
    rewrite handleSort_exec.
    eapply controls_after; [| |apply fetchReviews_controls]; done.
  - rewrite filterByStar_exec.
    eapply controls_after; [| |apply fetchReviews_controls]; done.
  - rewrite clearStarFilter_exec.
    eapply controls_after; [| |apply fetchReviews_controls]; done.
  - rewrite goToPage_exec.
    destruct ((p <? 1) || (totalPages (self sys) <? p));
      [by apply controls_quiet|].
    simpl. unfold host_effects. rewrite foldl_app. simpl.
    eapply controls_after; [| |apply fetchReviews_controls]; done.
  - rewrite voteHelpful_exec. case_bool_decide; by apply controls_quiet.
  - run_method. by apply controls_quiet.
  - run_method. by apply controls_quiet.
  - run_method; by apply controls_quiet.
  - run_method; by apply controls_quiet.
  - run_method. by apply controls_quiet.
  - destruct (submitting (host sys)); [by apply controls_quiet|].
    rewrite self_call, host_call. run_method; by apply controls_quiet.
  - destruct (timers (host sys)); [by apply controls_quiet|].
    rewrite self_call, host_call. run_method. by apply controls_quiet.
Qed.

Lemma abort_set_current s c : abortController s = Some c → c ∈ abort_set s.
Proof. unfold abort_set. intros ->. by apply elem_of_singleton. Qed.

Lemma controls_latest sys s' h' :
  latest_or_aborted sys →
  controls (self sys) s' (host sys) h' →
  latest_or_aborted (mkSystem s' h').
Proof.
  intros (Hctl & Hlt & Hpend).
  destruct 1 as [Ha Hc Hab Hp Hi|Ha Hc Hab Hp Hi|Ha Hc Hab Hp Hi];
    unfold latest_or_aborted; simpl; rewrite ?Ha, ?Hc, ?Hab, ?Hp, ?Hi.
  - done.
  - split; [done|]. split; [done|].
    intros k Hk. destruct (Hpend k Hk) as [Hin [Hhead|Haborted]];
      (split; [done|]); [by left|].
    right. apply elem_of_union. by right.
  - split; [done|]. split.
    + intros k [->|Hk]%elem_of_cons; [lia|]. specialize (Hlt k Hk). lia.
    + intros k Hk. simpl.
      destruct (decide (k = controllers (self sys))) as [->|Hne].
      { split; [left|by left]. }
      rewrite lookup_insert_ne in Hk by done.
      destruct (Hpend k Hk) as [Hin [Hhead|Haborted]].
      * split; [by right|]. right. apply elem_of_union. left.
        apply abort_set_current. by rewrite Hctl.
      * split; [by right|]. right. apply elem_of_union. by right.
Qed.

(** The settling of a listing request leaves the controller and the
    host's record of aborted and issued signals alone, and puts no new
    request in flight. *)
Lemma step_settles sys ev k :
  settles ev = Some k →
  abortController (self (step sys ev).1) = abortController (self sys)
  ∧ controllers (self (step sys ev).1) = controllers (self sys)
  ∧ aborted (host (step sys ev).1) = aborted (host sys)
  ∧ issued (host (step sys ev).1) = issued (host sys)
  ∧ ∀ j, is_Some (pending (host (step sys ev).1) !! j) →
      is_Some (pending (host sys) !! j).
Proof.
  intros Hev. destruct ev; try discriminate; simpl.
  - destruct (pending (host sys) !! signal) as [[]|] eqn:Hsig; [|done..].
    pose proof (fetchReviews_response_keeps
                  (settle (host sys) signal r) (self sys)) as H.
    destruct (fetchReviews_response _ _) as [[more s'] es].
    destruct H as (_ & Ha & Hc & Hh). rewrite Hh. simpl.
    do 4 (split; [done|]). intros j.
    destruct more; destruct (decide (signal = j)) as [->|Hne];
      rewrite ?lookup_insert_eq, ?lookup_insert_ne, ?lookup_delete_eq,
        ?lookup_delete_ne by done;
      rewrite ?Hsig; done.
  - destruct (pending (host sys) !! signal) as [[]|] eqn:Hsig; [done| |done].
    pose proof (fetchReviews_body_keeps
                  (settle (host sys) signal r) (self sys)) as H.
    destruct (exec _ _) as [s' es].
    destruct H as (_ & Ha & Hc & Hh). rewrite Hh. simpl.
    do 4 (split; [done|]). intros j.
    destruct (decide (signal = j)) as [->|Hne];
      rewrite ?lookup_delete_eq, ?lookup_delete_ne by done; [|done].
    by intros [? ?].
Qed.

Lemma step_latest sys ev :
  latest_or_aborted sys → latest_or_aborted (step sys ev).1.
Proof.
  intros Hinv. destruct (settles ev) as [k|] eqn:Hev.
  - destruct (step_settles sys ev k Hev) as (Ha & Hc & Hab & Hi & Hp).
    destruct Hinv as (Hctl & Hlt & Hpend).
    unfold latest_or_aborted. rewrite Ha, Hc, Hab, Hi.
    split; [done|]. split; [done|]. intros j Hj. apply Hpend, Hp, Hj.
  - pose proof (step_controls sys ev Hev) as H.
    apply (controls_latest sys _ _ Hinv) in H. by destruct (step sys ev).1.
Qed.

Lemma run_latest sys evs :
  latest_or_aborted sys → latest_or_aborted (run sys evs).
Proof.
  revert sys. induction evs as [|ev evs IH]; intros sys Hinv; [done|].
  apply IH, step_latest, Hinv.
Qed.

Lemma boot_latest app_key product_id :
  latest_or_aborted (boot app_key product_id).
Proof.
  split; [done|]. split.
  - intros k Hk. by apply elem_of_nil in Hk.
  - intros k [ph Hk]. simpl in Hk. by rewrite lookup_empty in Hk.
Qed.

(** What the host's [fetch] makes of an aborted signal: the continuation
    of [#fetchReviews] returns from its [catch] without a change. *)
Lemma settle_aborted_discarded sys ev k :
  settles ev = Some k →
  k ∈ aborted (host sys) ∨ pending (host sys) !! k = None →
  self (step sys ev).1 = self sys ∧ (step sys ev).2 = [].
Proof.
  intros Hev Hk. destruct ev; try discriminate; simpl in *; simplify_eq.
  - destruct (pending (host sys) !! k) as [[]|] eqn:Hsig; [|done..].
    destruct Hk as [Hk|?]; [|done].
    unfold settle. by rewrite bool_decide_eq_true_2.
  - destruct (pending (host sys) !! k) as [[]|] eqn:Hsig; [done| |done].
    destruct Hk as [Hk|?]; [|done].
    unfold settle. by rewrite bool_decide_eq_true_2.
Qed.

(** A response to the latest request, not aborted, is applied: the three
    collections become the ones of the response. *)
Lemma latest_listing_applied sys k data :
  pending (host sys) !! k = Some AwaitBody →
  k ∉ aborted (host sys) →
  api_failure data = None →
  let s' := self (step sys (ListingBody k (Fulfilled data))).1 in
  listing s'
  = (response data ≫= data_bottomline,
     default [] (response data ≫= data_reviews),
     response data ≫= data_pagination)
  ∧ isLoading s' = false.
Proof.
  intros Hk Hna Hok. simpl. rewrite Hk.
  unfold settle. rewrite bool_decide_eq_false_2 by done.
  by rewrite fetchReviews_body_accepted.
Qed.

(** C3: in any session, the settling of a listing request that is not the
    latest one issued changes no field of the component and has no
    effect, in whichever order the requests settle, and so does the
    settling of any request whose signal was aborted; and an event that
    issues a new listing request leaves every request that was in flight
    with an aborted signal. *)
Theorem only_latest_listing_applied app_key product_id evs :
  let sys := run (boot app_key product_id) evs in
  (∀ ev k, settles ev = Some k →
     head (issued (host sys)) ≠ Some k →
     self (step sys ev).1 = self sys ∧ (step sys ev).2 = [])
  ∧ (∀ ev k, settles ev = Some k →
       k ∈ aborted (host sys) →
       self (step sys ev).1 = self sys ∧ (step sys ev).2 = [])
  ∧ (∀ ev, issued (host (step sys ev).1) ≠ issued (host sys) →
       ∀ k, is_Some (pending (host sys) !! k) →
         k ∈ aborted (host (step sys ev).1)).
Proof.
  intros sys.
  assert (latest_or_aborted sys) as (Hctl & Hlt & Hpend)
    by apply run_latest, boot_latest.
  split; [|split].
  - intros ev k Hev Hnot. apply (settle_aborted_discarded sys ev k Hev).
    destruct (pending (host sys) !! k) as [ph|] eqn:Hk; [left|by right].
    destruct (Hpend k) as [_ [Hhead|Hab]]; [by eexists|done|done].
  - intros ev k Hev Hab. apply (settle_aborted_discarded sys ev k Hev).
    by left.
  - intros ev Hnew k Hk.
    destruct (settles ev) as [j|] eqn:Hev.
    { destruct (step_settles sys ev j Hev) as (_ & _ & _ & Hi & _). done. }
    destruct (step_controls sys ev Hev) as [? ? ? ? Hi|? ? ? ? Hi|_ _ Hab _ _];
      [done|done|].
    rewrite Hab. apply elem_of_union.
    destruct (Hpend k Hk) as [_ [Hhead|Haborted]]; [left|by right].
    apply abort_set_current. by rewrite Hctl.
Qed.

Lemma only_latest_listing_applied_witness :
  let ok := Fulfilled {| resp_ok := true; resp_status := 200 |} in
  let before := run (boot (Some "app") (Some "sku"))
                  [Connected None; ListingResponse 0 ok] in
  let sys := run (boot (Some "app") (Some "sku"))
               [Connected None; ListingResponse 0 ok;
                HandleSort (Some "score-desc")] in
  (self (step sys (ListingBody 0 (Fulfilled sample_listing))).1 = self sys
   ∧ (step sys (ListingBody 0 (Fulfilled sample_listing))).2 = [])
  ∧ 0%nat ∈ aborted (host (step before (HandleSort (Some "score-desc"))).1).
Proof.
  intros ok before sys. split.
  - destruct (only_latest_listing_applied (Some "app") (Some "sku")
                [Connected None; ListingResponse 0 ok;
                 HandleSort (Some "score-desc")]) as (Hlate & _).
    apply (Hlate (ListingBody 0 (Fulfilled sample_listing)) 0%nat);
      [reflexivity|by vm_compute].
  - destruct (only_latest_listing_applied (Some "app") (Some "sku")
                [Connected None; ListingResponse 0 ok]) as (_ & _ & Hnew).
    apply Hnew; [by vm_compute|]. exists AwaitBody. by vm_compute.
Defined.

(** ** More theorems: the star display *)

(** Without rounding up, the run of [#renderStars] is the full stars,
    the half star if there is one, and empty stars up to five. *)
Lemma renderStars_no_round rating :
  (0 <= rating)%Q → (rating <= 5)%Q → stars_over rating = false →
  renderStars rating
  = Some (replicate (Z.to_nat (stars_fullStars rating)) Filled
          ++ (if stars_hasHalf rating then [Half] else [])
          ++ replicate
               (Z.to_nat (5 - stars_fullStars rating
                          - (if stars_hasHalf rating then 1 else 0)))
               Empty)
  ∧ 0 ≤ 5 - stars_fullStars rating - (if stars_hasHalf rating then 1 else 0).
Proof.
  intros H0 H5 Hover.
  destruct (stars_fullStars_range rating H0 H5) as [Hlo Hhi].
  destruct (stars_half_over rating H0 H5) as [_ Hfive].
  assert (0 ≤ 5 - stars_fullStars rating
              - (if stars_hasHalf rating then 1 else 0)) as Hroom.
  { destruct (stars_hasHalf rating) eqn:Hhalf; [|lia].
    destruct (decide (stars_fullStars rating = 5)) as [Hf|Hf]; [|lia].
    destruct (Hfive Hf). congruence. }
  split; [|exact Hroom].
  unfold renderStars, stars_emptyStars, stars_extraFull. rewrite Hover.
  rewrite !js_repeat_nonneg by lia. simpl.
  do 4 f_equal; lia.
Qed.

(** X1: When the remainder of a rating between 0 and 5 is at most 0.7, the
    display has exactly five glyphs: the whole part of the rating in
    filled stars, a half star for a remainder of at least 0.3, and
    empty stars for the rest. *)
Theorem renderStars_five_without_rounding rating :
  (0 <= rating)%Q → (rating <= 5)%Q → stars_over rating = false →
  ∃ l, renderStars rating = Some l
    ∧ length l = 5%nat
    ∧ count_star Filled l = Z.to_nat (stars_fullStars rating)
    ∧ count_star Half l = (if stars_hasHalf rating then 1 else 0)%nat
    ∧ count_star Empty l
      = (5 - Z.to_nat (stars_fullStars rating)
         - (if stars_hasHalf rating then 1 else 0))%nat.
Proof.
  intros H0 H5 Hover.
  destruct (renderStars_no_round rating H0 H5 Hover) as [Hrun Hroom].
  destruct (stars_fullStars_range rating H0 H5) as [Hlo Hhi].
  eexists. split; [exact Hrun|].
  rewrite !count_star_app, !count_star_replicate, !length_app,
    !length_replicate.
  destruct (stars_hasHalf rating); simpl; repeat split; lia.
Qed.

Lemma renderStars_five_without_rounding_witness :
  ∃ l, renderStars (5 # 2) = Some l
    ∧ length l = 5%nat
    ∧ count_star Filled l = 2%nat
    ∧ count_star Half l = 1%nat
    ∧ count_star Empty l = 2%nat.
Proof.
  assert (0 <= 5 # 2)%Q as H0 by (by vm_compute).
  assert (5 # 2 <= 5)%Q as H5 by (by vm_compute).
  exact (renderStars_five_without_rounding (5 # 2) H0 H5 eq_refl).
Defined.

Lemma stars_whole n :
  stars_fullStars (inject_Z n) = n
  ∧ stars_hasHalf (inject_Z n) = false
  ∧ stars_over (inject_Z n) = false.
Proof.
  assert (stars_fullStars (inject_Z n) = n) as Hfull by apply Qfloor_Z.
  assert (stars_remainder (inject_Z n) == 0)%Q as Hrem.
  { unfold stars_remainder. rewrite Hfull. ring. }
  split; [exact Hfull|]. unfold stars_hasHalf, stars_over.
  assert (Qle_bool js_0_3 (stars_remainder (inject_Z n)) = false) as ->.
  { apply not_true_is_false. intros Hle%Qle_bool_iff.
    rewrite Hrem in Hle. by vm_compute in Hle. }
  assert (Qle_bool (stars_remainder (inject_Z n)) js_0_7 = true) as ->.
  { apply Qle_bool_iff. rewrite Hrem. by vm_compute. }
  done.
Qed.

(** X2: For a whole score from 0 to 5, as a review carries one,
    [#renderStars] draws that many filled stars followed by empty ones,
    five in all. *)
Theorem renderStars_whole_score n :
  0 ≤ n ≤ 5 →
  renderStars (inject_Z n)
  = Some (replicate (Z.to_nat n) Filled ++ replicate (Z.to_nat (5 - n)) Empty).
Proof.
  intros Hn. destruct (stars_whole n) as (Hfull & Hhalf & Hover).
  assert (inject_Z 0 <= inject_Z n)%Q as H0 by (rewrite <- Zle_Qle; lia).
  assert (inject_Z n <= inject_Z 5)%Q as H5 by (rewrite <- Zle_Qle; lia).
  destruct (renderStars_no_round (inject_Z n) H0 H5 Hover) as [-> _].
  rewrite Hfull, Hhalf. simpl. do 3 f_equal. lia.
Qed.

Lemma renderStars_whole_score_witness :
  renderStars (inject_Z 4) = Some [Filled; Filled; Filled; Filled; Empty].
Proof. apply (renderStars_whole_score 4). lia. Defined.

(** ** More theorems: the pagination window *)

Lemma page_numbers_pages l : page_numbers (PageNum <$> l) = l.
Proof.
  unfold page_numbers. induction l as [|n l IH]; simpl; [done|].
  f_equal. exact IH.
Qed.

Lemma seqZ_sorted m n : StronglySorted Z.lt (seqZ m n).
Proof.
  unfold seqZ. generalize 0%nat.
  induction (Z.to_nat n) as [|k IH]; intros start; simpl; constructor.
  - apply IH.
  - apply Forall_forall. intros x (i & -> & Hi%elem_of_seq)%list_elem_of_fmap.
    lia.
Qed.

Lemma generatePageNumbers_range c t n :
  n ∈ page_numbers (generatePageNumbers c t) → 1 ≤ n ≤ t.
Proof.
  unfold generatePageNumbers. destruct (Z.leb_spec t 7).
  - rewrite array_from_pages, page_numbers_pages, elem_of_seqZ. lia.
  - destruct (Z.leb_spec c 4); [|destruct (Z.leb_spec (t - 3) c)]; simpl;
      rewrite !elem_of_cons, elem_of_nil; lia.
Qed.

(** X3: Whatever the current page, the window of [#generatePageNumbers]
    names only pages between 1 and the last, in strictly increasing
    order, and it names the current page exactly when that is one of
    them. *)
Theorem generatePageNumbers_pages_exist c t :
  (∀ n, n ∈ page_numbers (generatePageNumbers c t) → 1 ≤ n ≤ t)
  ∧ StronglySorted Z.lt (page_numbers (generatePageNumbers c t))
  ∧ (c ∈ page_numbers (generatePageNumbers c t) ↔ 1 ≤ c ≤ t).
Proof.
  pose proof (generatePageNumbers_range c t) as Hrange.
  split; [exact Hrange|]. split.
  - unfold generatePageNumbers. destruct (Z.leb_spec t 7).
    + rewrite array_from_pages, page_numbers_pages. apply seqZ_sorted.
    + destruct (Z.leb_spec c 4); [|destruct (Z.leb_spec (t - 3) c)]; simpl;
        repeat (constructor; [|repeat (constructor; try lia)]); constructor.
  - split; [apply Hrange|]. intros Hc. unfold generatePageNumbers.
    destruct (Z.leb_spec t 7).
    + rewrite array_from_pages, page_numbers_pages, elem_of_seqZ. lia.
    + destruct (Z.leb_spec c 4); [|destruct (Z.leb_spec (t - 3) c)]; simpl;
        rewrite !elem_of_cons, elem_of_nil; lia.
Qed.

Lemma abbreviates_seqZ m n : abbreviates (PageNum <$> seqZ m n) = true.
Proof.
  unfold seqZ. generalize 0%nat.
  induction (Z.to_nat n) as [|k IH]; intros start; [done|].
  specialize (IH (S start)). destruct k as [|k]; [done|].
  simpl in *. rewrite IH.
  by destruct (Z.eqb_spec (Z.of_nat (S start) + m) (Z.of_nat start + m + 1));
    [|lia].
Qed.

(** X4: The window of [#generatePageNumbers] abbreviates the pages honestly,
    whatever the current page: two page numbers side by side are
    consecutive pages, and every ellipsis stands between two page numbers
    with at least one page left out between them. *)
Theorem generatePageNumbers_abbreviates c t :
  abbreviates (generatePageNumbers c t) = true.
Proof.
  unfold generatePageNumbers. destruct (Z.leb_spec t 7).
  - rewrite array_from_pages. apply abbreviates_seqZ.
  - destruct (Z.leb_spec c 4); [|destruct (Z.leb_spec (t - 3) c)]; simpl;
      repeat match goal with
             | |- context [?a =? ?b] => destruct (Z.eqb_spec a b); [|lia]
             | |- context [?a <? ?b] => destruct (Z.ltb_spec a b); [|lia]
             end; reflexivity.
Qed.

(** ** More theorems: the pagination bar and the controls *)

(** [Math.ceil(total / perPage)] in whole numbers. *)
Lemma page_count_bounds p :
  perPage * (page_count p - 1) < total p ≤ perPage * page_count p.
Proof.
  destruct (page_count_ceiling p) as [Hlo Hhi].
  change (inject_Z perPage) with 10%Q in *. unfold perPage.
  assert (inject_Z (total p) / 10 * 10 == inject_Z (total p))%Q as Hdiv
    by field.
  assert (inject_Z (10 * (page_count p - 1)) < inject_Z (total p))%Q as Hlo'.
  { rewrite inject_Z_mult, Qmult_comm, <- Hdiv.
    by apply Qmult_lt_r. }
  assert (inject_Z (total p) <= inject_Z (10 * page_count p))%Q as Hhi'.
  { rewrite inject_Z_mult, Qmult_comm, <- Hdiv.
    by apply Qmult_le_r. }
  rewrite <- Zlt_Qlt in Hlo'. rewrite <- Zle_Qle in Hhi'. lia.
Qed.

Lemma goToPage_page p s :
  1 ≤ p ≤ totalPages s → currentPage (exec (goToPage p) s).1 = p.
Proof.
  intros Hp. rewrite goToPage_exec.
  destruct (Z.ltb_spec p 1); [lia|].
  destruct (Z.ltb_spec (totalPages s) p); [lia|]. simpl.
  by destruct (fetchReviews_keeps (set_currentPage p s)) as (-> & _).
Qed.

(** X5: With pagination data, [#renderPagination] draws no bar exactly when
    there is at most one page; and when the current page is one of the
    pages, every enabled control of the bar (previous, next and the page
    numbers of the window) leads to a page that [goToPage] accepts and
    makes current. *)
Theorem pagination_bar_navigates s p :
  pagination s = Some p →
  (renderPaginationNav s = None ↔ totalPages s ≤ 1)
  ∧ (1 ≤ currentPage s ≤ totalPages s →
     ∀ nav n, renderPaginationNav s = Some nav → n ∈ nav_targets nav →
       1 ≤ n ≤ totalPages s ∧ currentPage (exec (goToPage n) s).1 = n).
Proof.
  intros Hp. pose proof (page_count_bounds p) as Hb. unfold perPage in Hb.
  assert (totalPages s = page_count p) as Htotal
    by (unfold totalPages; by rewrite Hp).
  rewrite Htotal.
  unfold renderPaginationNav, renderPagination. rewrite Hp. simpl.
  unfold perPage. split.
  - destruct (Z.leb_spec (total p) 10); simpl; split; try done; lia.
  - intros Hc nav n. destruct (Z.leb_spec (total p) 10); simpl; [done|].
    intros [= <-]. unfold nav_targets. simpl. rewrite Htotal.
    intros Hn.
    assert (1 ≤ n ≤ page_count p) as Hrange.
    { apply elem_of_app in Hn as [Hn|Hn].
      { destruct (Z.eqb_spec (currentPage s) 1);
          [by apply elem_of_nil in Hn|].
        apply list_elem_of_singleton in Hn. lia. }
      apply elem_of_app in Hn as [Hn|Hn].
      - apply (generatePageNumbers_range (currentPage s)).
        unfold page_numbers.
        apply list_elem_of_omap in Hn as (ctl & Hctl & Htarget).
        apply list_elem_of_fmap in Hctl as (e & -> & He).
        apply list_elem_of_omap. exists e. split; [exact He|].
        by destruct e.
      - destruct (Z.eqb_spec (currentPage s) (page_count p));
          [by apply elem_of_nil in Hn|].
        apply list_elem_of_singleton in Hn. lia. }
    split; [exact Hrange|]. apply goToPage_page. by rewrite Htotal.
Qed.

Lemma pagination_bar_navigates_witness :
  let s := set_currentPage 3
             (set_pagination
                (Some {| page := 3; per_page := 10; total := 95 |})
                (initial (Some "app") (Some "sku"))) in
  currentPage (exec (goToPage 2) s).1 = 2
  ∧ currentPage (exec (goToPage 10) s).1 = 10.
Proof.
  intros s.
  destruct (pagination_bar_navigates s
              {| page := 3; per_page := 10; total := 95 |} eq_refl)
    as [_ Hnav].
  assert (1 ≤ currentPage s ≤ totalPages s) as Hc by (by vm_compute).
  destruct (renderPaginationNav s) as [nav|] eqn:Hbar; [|by vm_compute in Hbar].
  split.
  - apply (Hnav Hc nav 2 eq_refl).
    vm_compute in Hbar. injection Hbar as <-. vm_compute. by left.
  - apply (Hnav Hc nav 10 eq_refl).
    vm_compute in Hbar. injection Hbar as <-. vm_compute.
    do 6 right. by left.
Defined.

(** X6: With the current page among the pages, the line "Showing a-b of n"
    of [#renderControls] shows the first and the last review of the
    page: [a] is one more than the reviews of the pages before, [b] is
    at most a page further, never beyond the total, and is the total on
    the last page. *)
Theorem showing_current_page s p :
  pagination s = Some p →
  1 ≤ currentPage s ≤ totalPages s →
  ∃ a b, showing (renderControls s) = Some (a, b, total p)
    ∧ a = (currentPage s - 1) * perPage + 1
    ∧ a ≤ b ≤ total p
    ∧ b - a < perPage
    ∧ (currentPage s < totalPages s → b = currentPage s * perPage)
    ∧ (currentPage s = totalPages s → b = total p).
Proof.
  intros Hp Hc. pose proof (page_count_bounds p) as Hb.
  unfold renderControls, totalPages in *. rewrite Hp in *. simpl.
  unfold perPage in *.
  eexists _, _. split; [reflexivity|]. lia.
Qed.

Lemma showing_current_page_witness :
  let s := set_currentPage 10
             (set_pagination
                (Some {| page := 10; per_page := 10; total := 95 |})
                (initial (Some "app") (Some "sku"))) in
  ∃ a b, showing (renderControls s) = Some (a, b, 95) ∧ a = 91 ∧ b = 95.
Proof.
  intros s.
  destruct (showing_current_page s
              {| page := 10; per_page := 10; total := 95 |} eq_refl)
    as (a & b & Hshow & Ha & _ & _ & _ & Hlast); [by vm_compute|].
  exists a, b. split; [exact Hshow|]. split; [exact Ha|].
  apply Hlast. by vm_compute.
Defined.

(** ** More theorems: the content of the main view *)

(** X7: [#renderContent] tells an empty product from an empty filter result:
    without reviews and without a filter it invites the first review;
    without reviews under a filter (other than 0, which the code reads
    as no filter) it shows the controls and the message that nothing
    matches; with reviews it shows one item per review, in order. *)
Theorem renderContent_empty_states s :
  (reviews s = [] → currentStarFilter s = None →
   renderContent s = NoReviewsYet)
  ∧ (reviews s = [] → currentStarFilter s = Some 0 →
     renderContent s = NoReviewsYet)
  ∧ (∀ star, reviews s = [] → currentStarFilter s = Some star → star ≠ 0 →
       renderContent s
       = ContentView (renderControls s) NoResults (renderPaginationNav s))
  ∧ (reviews s ≠ [] →
     ∃ items,
       renderContent s
       = ContentView (renderControls s) (ReviewItems items)
           (renderPaginationNav s)
       ∧ item_id <$> items = id <$> reviews s).
Proof.
  unfold renderContent, renderReviewsList, no_star_filter.
  split; [|split; [|split]].
  - by intros -> ->.
  - by intros -> ->.
  - intros star -> -> Hstar. simpl.
    by destruct (Z.eqb_spec star 0).
  - intros Hsome. exists (renderReview s <$> reviews s).
    rewrite bool_decide_eq_false_2 by done. simpl.
    split; [by destruct (reviews s)|].
    rewrite <- list_fmap_compose. by apply list_fmap_ext.
Qed.

Lemma renderContent_empty_states_witness :
  renderContent (initial None None) = NoReviewsYet
  ∧ renderContent (set_currentStarFilter (Some 5) (initial None None))
    = ContentView
        (renderControls (set_currentStarFilter (Some 5) (initial None None)))
        NoResults None.
Proof.
  split.
  - destruct (renderContent_empty_states (initial None None))
      as (Hempty & _).
    apply Hempty; reflexivity.
  - destruct (renderContent_empty_states
                (set_currentStarFilter (Some 5) (initial None None)))
      as (_ & _ & Hfiltered & _).
    apply (Hfiltered 5); [reflexivity|reflexivity|lia].
Defined.

(** ** More theorems: voting *)

Lemma vote_on_ids reviewId vote l :
  id <$> vote_on reviewId vote l = id <$> l.
Proof.
  induction l as [|r l IH]; simpl; [done|].
  destruct (Z.eqb_spec (id r) reviewId); simpl.
  - unfold count_vote. by case_bool_decide.
  - f_equal. exact IH.
Qed.

Lemma vote_on_first reviewId vote l1 r l2 :
  id r = reviewId →
  (∀ x, x ∈ l1 → id x ≠ reviewId) →
  vote_on reviewId vote (l1 ++ r :: l2) = l1 ++ count_vote vote r :: l2.
Proof.
  intros Hr. induction l1 as [|x l1 IH]; intros Hbefore; simpl.
  - by destruct (Z.eqb_spec (id r) reviewId).
  - destruct (Z.eqb_spec (id x) reviewId) as [Hx|_].
    { by destruct (Hbefore x); [left|]. }
    rewrite IH; [done|]. intros y Hy. apply Hbefore. by right.
Qed.

Lemma vote_on_absent reviewId vote l :
  (∀ x, x ∈ l → id x ≠ reviewId) → vote_on reviewId vote l = l.
Proof.
  induction l as [|x l IH]; intros Hnone; simpl; [done|].
  destruct (Z.eqb_spec (id x) reviewId) as [Hx|_].
  { by destruct (Hnone x); [left|]. }
  rewrite IH; [done|]. intros y Hy. apply Hnone. by right.
Qed.

Lemma voteHelpful_fresh data s :
  reviewId data ∉ votedReviews s →
  exec (voteHelpful data) s
  = (set_reviews (vote_on (reviewId data) (vote data) (reviews s))
       (set_votedReviews ({[reviewId data]} ∪ votedReviews s) s),
     [StorageSetItem ({[reviewId data]} ∪ votedReviews s);
      SetInnerHTML (MainView (render_body s));
      FetchVote (reviewId data) (vote data) (appKey s)]).
Proof.
  intros Hfresh. rewrite voteHelpful_exec.
  by rewrite bool_decide_eq_false_2.
Qed.

(** X8: A first vote on a review of the list counts once, on the first
    review with that id and on no other: an ["up"] vote adds one to its
    up count, any other vote adds one to its down count (a missing count
    reads as 0), and the other count stays; the review joins the voted
    set, the set is saved, the view is redrawn and one vote request is
    sent, with the direction as given. *)
Theorem voteHelpful_counts_once s data l1 r l2 :
  reviewId data ∉ votedReviews s →
  reviews s = l1 ++ r :: l2 →
  id r = reviewId data →
  (∀ x, x ∈ l1 → id x ≠ reviewId data) →
  ∃ r',
    reviews (exec (voteHelpful data) s).1 = l1 ++ r' :: l2
    ∧ id r' = id r
    ∧ (vote data = "up" →
       votes_up r' = Some (default 0 (votes_up r) + 1)
       ∧ votes_down r' = votes_down r)
    ∧ (vote data ≠ "up" →
       votes_down r' = Some (default 0 (votes_down r) + 1)
       ∧ votes_up r' = votes_up r)
    ∧ votedReviews (exec (voteHelpful data) s).1
      = {[reviewId data]} ∪ votedReviews s
    ∧ (exec (voteHelpful data) s).2
      = [StorageSetItem ({[reviewId data]} ∪ votedReviews s);
         SetInnerHTML (MainView (render_body s));
         FetchVote (reviewId data) (vote data) (appKey s)].
Proof.
  intros Hfresh Hl Hr Hbefore. exists (count_vote (vote data) r).
  rewrite voteHelpful_fresh by done. simpl.
  rewrite Hl, vote_on_first by done.
  split; [done|]. unfold count_vote.
  split; [by case_bool_decide|].
  split; [intros Hup; by rewrite bool_decide_eq_true_2|].
  split; [intros Hdown; by rewrite bool_decide_eq_false_2|].
  done.
Qed.

Lemma voteHelpful_counts_once_witness :
  let r7 := {| id := 7; score := 4; votes_up := None; votes_down := Some 2;
               images_data := None |} in
  let r8 := {| id := 8; score := 5; votes_up := Some 3; votes_down := None;
               images_data := None |} in
  let s := set_reviews [r7; r8] (initial (Some "app") (Some "sku")) in
  ∃ r', reviews (exec (voteHelpful {| reviewId := 8; vote := "down" |}) s).1
        = [r7; r']
    ∧ votes_down r' = Some 1 ∧ votes_up r' = Some 3.
Proof.
  intros r7 r8 s.
  destruct (voteHelpful_counts_once s {| reviewId := 8; vote := "down" |}
              [r7] r8 []) as (r' & Hl & _ & _ & Hdown & _).
  - by vm_compute.
  - reflexivity.
  - reflexivity.
  - intros x Hx%list_elem_of_singleton. subst x. by vm_compute.
  - exists r'. split; [exact Hl|]. by apply Hdown.
Defined.

(** X9: A first vote on a review that is not in the list (another page, a
    stale button) changes no review, and is recorded, saved and sent all
    the same. *)
Theorem voteHelpful_unlisted_review s data :
  reviewId data ∉ votedReviews s →
  (∀ x, x ∈ reviews s → id x ≠ reviewId data) →
  reviews (exec (voteHelpful data) s).1 = reviews s
  ∧ reviewId data ∈ votedReviews (exec (voteHelpful data) s).1
  ∧ last_saved (exec (voteHelpful data) s).2
    = Some (votedReviews (exec (voteHelpful data) s).1)
  ∧ FetchVote (reviewId data) (vote data) (appKey s)
    ∈ (exec (voteHelpful data) s).2.
Proof.
  intros Hfresh Hnone. rewrite voteHelpful_fresh by done. simpl.
  rewrite vote_on_absent by done.
  split; [done|]. split; [|split; [done|]].
  - apply elem_of_union. left. by apply elem_of_singleton.
  - do 2 right. by left.
Qed.

Lemma voteHelpful_unlisted_review_witness :
  let s := initial (Some "app") (Some "sku") in
  let data := {| reviewId := 9; vote := "up" |} in
  reviews (exec (voteHelpful data) s).1 = []
  ∧ 9 ∈ votedReviews (exec (voteHelpful data) s).1.
Proof.
  intros s data.
  destruct (voteHelpful_unlisted_review s data) as (Hl & Hin & _).
  - by vm_compute.
  - intros x Hx. by apply elem_of_nil in Hx.
  - by split.
Defined.

(** X10: After [voteHelpful], whatever it did, the list draws the vote
    buttons of every review with the voted id disabled, and the buttons
    of the other reviews as before. *)
Theorem voted_review_buttons_disabled s data :
  let s' := (exec (voteHelpful data) s).1 in
  item_id <$> (renderReview s' <$> reviews s') = id <$> reviews s
  ∧ ∀ item, item ∈ renderReview s' <$> reviews s' →
      (item_id item = reviewId data → item_vote_disabled item = true)
      ∧ (item_id item ≠ reviewId data →
         item_vote_disabled item
         = bool_decide (item_id item ∈ votedReviews s)).
Proof.
  intros s'. split.
  - rewrite <- list_fmap_compose.
    transitivity (id <$> reviews s'); [by apply list_fmap_ext|].
    subst s'. rewrite voteHelpful_exec.
    destruct (bool_decide (reviewId data ∈ votedReviews s)); [done|].
    simpl. apply vote_on_ids.
  - intros item (r & -> & Hr)%list_elem_of_fmap. simpl. split.
    + intros ->. apply bool_decide_eq_true_2. apply voteHelpful_records.
    + intros Hother. subst s'. rewrite voteHelpful_exec.
      destruct (bool_decide (reviewId data ∈ votedReviews s)); [done|].
      simpl. apply bool_decide_ext.
      rewrite elem_of_union, elem_of_singleton.
      split; [by intros [?|?]|by right].
Qed.

(** ** More theorems: the stored votes *)

(** X11: Votes survive a reload: what a first vote hands to the storage is
    the whole voted set, and an element that starts from that entry has
    the same voted set, so it rejects a vote on the same review without
    a change or an effect. *)
Theorem saved_votes_reload s data s0 :
  reviewId data ∉ votedReviews s →
  let voted := votedReviews (exec (voteHelpful data) s).1 in
  let reloaded := (exec (connectedCallback (stored_entry voted)) s0).1 in
  last_saved (exec (voteHelpful data) s).2 = Some voted
  ∧ votedReviews reloaded = voted
  ∧ ∀ again, reviewId again = reviewId data →
      exec (voteHelpful again) reloaded = (reloaded, []).
Proof.
  intros Hfresh voted reloaded.
  assert (votedReviews reloaded = voted) as Hreload.
  { subst reloaded. unfold stored_entry.
    rewrite connectedCallback_voted. apply list_to_set_elements_L. }
  split; [|split; [exact Hreload|]].
  - subst voted. by rewrite voteHelpful_fresh.
  - intros again Hsame. apply voteHelpful_member.
    rewrite Hreload, Hsame. apply voteHelpful_records.
Qed.

Lemma saved_votes_reload_witness :
  let s := set_votedReviews {[ 41 ]} (initial (Some "app") (Some "sku")) in
  let data := {| reviewId := 7; vote := "up" |} in
  let voted := votedReviews (exec (voteHelpful data) s).1 in
  votedReviews
    (exec (connectedCallback (stored_entry voted)) (initial None None)).1
  = voted.
Proof.
  intros s data voted.
  destruct (saved_votes_reload s data (initial None None)) as (_ & H & _);
    [by vm_compute|exact H].
Defined.

Lemma generatePageNumbers_pages_exist_witness :
  7 ∈ page_numbers (generatePageNumbers 7 12)
  ∧ ¬ 13 ∈ page_numbers (generatePageNumbers 13 12).
Proof.
  split.
  - destruct (generatePageNumbers_pages_exist 7 12) as (_ & _ & Hin).
    apply Hin. lia.
  - destruct (generatePageNumbers_pages_exist 13 12) as (Hrange & _).
    intros Hin. specialize (Hrange 13 Hin). lia.
Defined.

Lemma voted_review_buttons_disabled_witness :
  let r7 := {| id := 7; score := 4; votes_up := None; votes_down := None;
               images_data := None |} in
  let s := set_reviews [r7] (initial (Some "app") (Some "sku")) in
  let s' := (exec (voteHelpful {| reviewId := 7; vote := "up" |}) s).1 in
  item_vote_disabled (renderReview s (count_vote "up" r7)) = false
  ∧ item_vote_disabled (renderReview s' (count_vote "up" r7)) = true.
Proof.
  intros r7 s s'. split; [by vm_compute|].
  destruct (voted_review_buttons_disabled s {| reviewId := 7; vote := "up" |})
    as [_ Hitems].
  apply (Hitems (renderReview s' (count_vote "up" r7))); [|reflexivity].
  vm_compute. by left.
Defined.

(** ** More theorems: the outcomes of a listing request *)

(** X12: A listing request that fails for another reason than an abort (a
    rejected [fetch], a transport status that is not OK, a body that
    does not parse, an API status other than 200) clears the loading
    flag and replaces the view by the error message; the listing shown
    before, the query and the voted set stay as they are. *)
Theorem fetchReviews_failure_outcome s :
  (∀ resp, resp_ok resp = false →
     fetchReviews_response (Fulfilled resp) s
     = (false, set_isLoading false s,
        [SetInnerHTML
           (ErrorView ("HTTP " +:+ pretty (resp_status resp)))]))
  ∧ (∀ name message, name ≠ "AbortError" →
       fetchReviews_response (Rejected (JsError name message)) s
       = (false, set_isLoading false s, [SetInnerHTML (ErrorView message)])
       ∧ exec (fetchReviews_body (Rejected (JsError name message))) s
         = (set_isLoading false s, [SetInnerHTML (ErrorView message)]))
  ∧ (exec (fetchReviews_body (Rejected NotAnError)) s
     = (set_isLoading false s,
        [SetInnerHTML (ErrorView "Failed to load reviews")]))
  ∧ (∀ data st, status data = Some st → st ≠ 0 → st ≠ 200 →
       exec (fetchReviews_body (Fulfilled data)) s
       = (set_isLoading false s,
          [SetInnerHTML (ErrorView ("API error: " +:+ pretty st))])).
Proof.
  split; [|split; [|split]].
  - intros resp Hok. unfold fetchReviews_response. by rewrite Hok.
  - intros name message Hname.
    unfold exec, fetchReviews_response, fetchReviews_body, fetchReviews_catch,
      mbind, M_bind.
    by rewrite bool_decide_eq_false_2.
  - done.
  - intros data st Hst H0 H200.
    unfold exec, fetchReviews_body, api_failure. rewrite Hst.
    destruct (Z.eqb_spec st 0); [done|].
    by destruct (Z.eqb_spec st 200).
Qed.

Lemma fetchReviews_failure_outcome_witness :
  let s := fetching (initial (Some "app") (Some "sku")) in
  fetchReviews_response
    (Fulfilled {| resp_ok := false; resp_status := 503 |}) s
  = (false, set_isLoading false s, [SetInnerHTML (ErrorView "HTTP 503")]).
Proof.
  intros s.
  destruct (fetchReviews_failure_outcome s) as (Hhttp & _).
  exact (Hhttp {| resp_ok := false; resp_status := 503 |} eq_refl).
Defined.






(** A response with a negative average: the listing is taken, and the
    error of [repeat] is what the user sees. *)
Lemma listing_with_negative_average :
  let data := {| status := Some 200;
                 response := Some
                   {| data_bottomline := Some
                        {| total_review := 1; average_score := -1;
                           star_distribution := None |};
                      data_reviews := Some [];
                      data_pagination := None |} |} in
  let s := fetching (initial (Some "app") (Some "sku")) in
  (exec (fetchReviews_body (Fulfilled data)) s).2
  = [SetInnerHTML (ErrorView "Invalid count value: -1")]
  ∧ (average_score <$> bottomline
       (exec (fetchReviews_body (Fulfilled data)) s).1) = Some (-1)%Q.
Proof. by vm_compute. Qed.



(** ** More theorems: invariants of a session *)

Lemma fetchReviews_page s :
  currentPage (exec fetchReviews s).1 = currentPage s.
Proof. apply fetchReviews_keeps. Qed.

Lemma step_currentPage sys ev :
  1 ≤ currentPage (self sys) → 1 ≤ currentPage (self (step sys ev).1).
Proof.
  intros Hpage. destruct ev; simpl; rewrite ?self_call.
  - rewrite connectedCallback_exec, fetchReviews_page. by destruct stored.
  - by run_method.
  - unfold retryFetch. by rewrite fetchReviews_page.
  - destruct target as [value|]; [|done].
    by rewrite handleSort_exec, fetchReviews_page.
  - by rewrite filterByStar_exec, fetchReviews_page.
  - by rewrite clearStarFilter_exec, fetchReviews_page.
  - rewrite goToPage_exec. destruct (Z.ltb_spec p 1); [done|].
    destruct (totalPages (self sys) <? p); [done|]. simpl.
    by rewrite fetchReviews_page.
  - rewrite voteHelpful_exec. by case_bool_decide.
  - by run_method.
  - by run_method.
  - by run_method.
  - by run_method.
  - by run_method.
  - destruct (pending (host sys) !! signal) as [[]|]; [|done..].
    destruct (settle (host sys) signal r) as [resp|e]; run_method; done.
  - destruct (pending (host sys) !! signal) as [[]|]; [done| |done].
    pose proof (fetchReviews_body_page
                  (settle (host sys) signal r) (self sys)) as Hkeep.
    destruct (exec _ _) as [s' es]. simpl in *. by rewrite Hkeep.
  - destruct (submitting (host sys)); [done|]. rewrite self_call.
    by run_method.
  - destruct (timers (host sys)); [done|]. rewrite self_call.
    by run_method.
Qed.

(** X15: In a session the current page never drops below 1, whatever pages
    the user asks for and whatever the responses say. *)
Theorem currentPage_at_least_one app_key product_id evs :
  1 ≤ currentPage (self (run (boot app_key product_id) evs)).
Proof.
  assert (∀ sys, 1 ≤ currentPage (self sys) →
                 1 ≤ currentPage (self (run sys evs))) as Hrun.
  { induction evs as [|ev evs IH]; intros sys Hsys; [done|].
    apply IH, step_currentPage, Hsys. }
  by apply Hrun.
Qed.

(** X16: In a session at most one listing request is in flight with a signal
    that is not aborted, and it is the one made under the controller the
    component holds. *)
Theorem one_live_listing_request app_key product_id evs k1 k2 :
  let sys := run (boot app_key product_id) evs in
  is_Some (pending (host sys) !! k1) → k1 ∉ aborted (host sys) →
  is_Some (pending (host sys) !! k2) → k2 ∉ aborted (host sys) →
  k1 = k2 ∧ abortController (self sys) = Some k1.
Proof.
  intros sys Hp1 Ha1 Hp2 Ha2.
  assert (latest_or_aborted sys) as (Hctl & _ & Hpend)
    by apply run_latest, boot_latest.
  destruct (Hpend k1 Hp1) as [_ [Hh1|?]]; [|done].
  destruct (Hpend k2 Hp2) as [_ [Hh2|?]]; [|done].
  split; [congruence|]. by rewrite Hctl.
Qed.

Lemma one_live_listing_request_witness :
  let sys := run (boot (Some "app") (Some "sku"))
               [Connected None; FilterByStar 5] in
  abortController (self sys) = Some 1%nat.
Proof.
  intros sys.
  destruct (one_live_listing_request (Some "app") (Some "sku")
              [Connected None; FilterByStar 5] 1%nat 1%nat) as [_ H].
  - exists AwaitResponse. by vm_compute.
  - by vm_compute.
  - exists AwaitResponse. by vm_compute.
  - by vm_compute.
  - exact H.
Defined.

(** X17: Once the element is disconnected, no listing response is applied
    any more: whatever request settles next, and however, no field
    changes and nothing is drawn. *)
Theorem disconnected_drops_responses app_key product_id evs :
  let sys := (step (run (boot app_key product_id) evs) Disconnected).1 in
  ∀ ev k, settles ev = Some k →
    self (step sys ev).1 = self sys ∧ (step sys ev).2 = [].
Proof.
  intros sys ev k Hev.
  apply (settle_aborted_discarded sys ev k Hev).
  destruct (pending (host sys) !! k) as [ph|] eqn:Hk; [left|by right].
  set (before := run (boot app_key product_id) evs) in *.
  assert (latest_or_aborted before) as (Hctl & _ & Hpend)
    by apply run_latest, boot_latest.
  assert (host sys
          = mkHost (abort_set (self before) ∪ aborted (host before))
              (pending (host before)) (issued (host before))
              (submitting (host before)) (timers (host before))) as Hhost.
  { subst sys. simpl. rewrite host_call. unfold disconnectedCallback.
    replace (exec abort_current (self before))
      with (self before, abort_effects (self before)).
    - apply abort_effects_host.
    - unfold exec, abort_current, abort_effects, mbind, M_bind, get.
      by destruct (abortController (self before)). }
  rewrite Hhost in Hk |- *. simpl in *. apply elem_of_union.
  destruct (Hpend k) as [_ [Hhead|Hab]]; [by eexists| |by right].
  left. apply abort_set_current. by rewrite Hctl.
Qed.

Lemma disconnected_drops_responses_witness :
  let sys := (step (run (boot (Some "app") (Some "sku")) [Connected None])
                Disconnected).1 in
  let ev := ListingResponse 0
              (Fulfilled {| resp_ok := false; resp_status := 500 |}) in
  self (step sys ev).1 = self sys ∧ (step sys ev).2 = [].
Proof.
  intros sys ev.
  exact (disconnected_drops_responses (Some "app") (Some "sku")
           [Connected None] ev 0%nat eq_refl).
Defined.

(** What an event that settles no request does to the loading flag: it
    raises it, or leaves it with the requests in flight as they were. *)
Lemma fetchReviews_loading s h :
  isLoading (exec fetchReviews s).1 = true
  ∨ (isLoading (exec fetchReviews s).1 = isLoading s
     ∧ pending (host_effects h (exec fetchReviews s).2) = pending h
     ∧ issued (host_effects h (exec fetchReviews s).2) = issued h).
Proof.
  rewrite fetchReviews_exec. destruct (missing_identifier s); [by right|by left].
Qed.

Lemma step_loading_cases sys ev :
  settles ev = None →
  isLoading (self (step sys ev).1) = true
  ∨ (isLoading (self (step sys ev).1) = isLoading (self sys)
     ∧ pending (host (step sys ev).1) = pending (host sys)
     ∧ issued (host (step sys ev).1) = issued (host sys)).
Proof.
  intros Hev. destruct ev; try discriminate; simpl;
    rewrite ?self_call, ?host_call.
  - rewrite connectedCallback_exec.
    destruct (fetchReviews_loading
                (match stored with
                 | Some ids => set_votedReviews (list_to_set ids) (self sys)
                 | None => self sys
                 end) (host sys)) as [?|(-> & -> & ->)]; [by left|right].
    by destruct stored.
  - right. unfold disconnectedCallback.
    replace (exec abort_current (self sys))
      with (self sys, abort_effects (self sys)).
    + simpl. by rewrite abort_effects_host.
    + unfold exec, abort_current, abort_effects, mbind, M_bind, get.
      by destruct (abortController (self sys)).
  - apply fetchReviews_loading.
  - destruct target as [value|]; [|by right]. rewrite handleSort_exec.
    destruct (fetchReviews_loading
                (set_currentPage 1
                   (set_currentDirection (js_split "-" value !! 1%nat)
                      (set_currentSort
                         (default EmptyString (js_split "-" value !! 0%nat))
                         (self sys)))) (host sys))
      as [?|(-> & -> & ->)]; [by left|by right].
  - rewrite filterByStar_exec.
    destruct (fetchReviews_loading
                (set_currentPage 1
                   (set_currentStarFilter
                      (if bool_decide (currentStarFilter (self sys) = Some star)
                       then None else Some star) (self sys))) (host sys))
      as [?|(-> & -> & ->)]; [by left|by right].
  - rewrite clearStarFilter_exec.
    destruct (fetchReviews_loading
                (set_currentPage 1 (set_currentStarFilter None (self sys)))
                (host sys))
      as [?|(-> & -> & ->)]; [by left|by right].
  - rewrite goToPage_exec.
    destruct ((p <? 1) || (totalPages (self sys) <? p)); [by right|].
    simpl. unfold host_effects. rewrite foldl_app. simpl.
    destruct (fetchReviews_loading (set_currentPage p (self sys)) (host sys))
      as [?|(-> & Hp & Hi)]; [by left|by right].
  - right. rewrite voteHelpful_exec. by case_bool_decide.
  - right. by run_method.
  - right. by run_method.
  - right. by run_method.
  - right. by run_method.
  - right. by run_method.
  - right. destruct (submitting (host sys)); [done|].
    rewrite self_call, host_call. by run_method.
  - right. destruct (timers (host sys)); [done|].
    rewrite self_call, host_call. by run_method.
Qed.

Lemma fetchReviews_response_more r s s' es :
  fetchReviews_response r s = (true, s', es) → s' = s.
Proof.
  unfold fetchReviews_response, fetchReviews_catch, renderError, mbind,
    M_bind, mret, M_ret, modify, emit.
  destruct r as [resp|[name message|]]; simpl.
  - destruct (resp_ok resp); simpl; by intros [= <- _].
  - case_bool_decide; simpl; by intros [=].
  - by intros [=].
Qed.

Lemma step_loading sys ev :
  latest_or_aborted sys →
  (∀ c, head (issued (host sys)) = Some c →
        is_Some (pending (host sys) !! c) → isLoading (self sys) = true) →
  ∀ c, head (issued (host (step sys ev).1)) = Some c →
       is_Some (pending (host (step sys ev).1) !! c) →
       isLoading (self (step sys ev).1) = true.
Proof.
  intros (_ & _ & Hpend) Hload c.
  destruct (settles ev) as [k|] eqn:Hev.
  - destruct (step_settles sys ev k Hev) as (_ & _ & _ & Hi & Hp).
    rewrite Hi. intros Hc Hc'. specialize (Hload c Hc (Hp c Hc')).
    destruct ev; try discriminate; simpl in *; simplify_eq.
    + destruct (pending (host sys) !! k) as [[]|] eqn:Hk; [|done..].
      unfold settle in *.
      destruct (decide (k ∈ aborted (host sys))) as [Hab|Hab].
      { by rewrite bool_decide_eq_true_2 in * by done. }
      rewrite bool_decide_eq_false_2 in * by done.
      destruct (Hpend k) as [_ [Hhead|?]]; [by eexists| |done].
      assert (c = k) as -> by congruence.
      destruct (fetchReviews_response r (self sys)) as [[more s'] es] eqn:Hr.
      destruct more.
      * apply fetchReviews_response_more in Hr. by subst s'.
      * simpl in Hc'. rewrite lookup_delete_eq in Hc'. by destruct Hc'.
    + destruct (pending (host sys) !! k) as [[]|] eqn:Hk; [done| |done].
      unfold settle in *.
      destruct (decide (k ∈ aborted (host sys))) as [Hab|Hab].
      { by rewrite bool_decide_eq_true_2 in * by done. }
      rewrite bool_decide_eq_false_2 in * by done.
      destruct (Hpend k) as [_ [Hhead|?]]; [by eexists| |done].
      assert (c = k) as -> by congruence.
      destruct (exec (fetchReviews_body r) (self sys)) as [s' es] eqn:Hr.
      simpl in Hc'.
      pose proof (fetchReviews_body_keeps r (self sys)) as Hkeep.
      rewrite Hr in Hkeep. destruct Hkeep as (_ & _ & _ & Hh).
      rewrite Hh in Hc'. simpl in Hc'.
      rewrite lookup_delete_eq in Hc'. by destruct Hc'.
  - destruct (step_loading_cases sys ev Hev) as [?|(-> & -> & ->)]; [done|].
    apply Hload.
Qed.

(** X18: In a session, while the latest listing request is in flight the
    loading flag is set, so the view drawn from the state is the loading
    view, not a form or a list. *)
Theorem loading_while_latest_in_flight app_key product_id evs c :
  let sys := run (boot app_key product_id) evs in
  head (issued (host sys)) = Some c →
  is_Some (pending (host sys) !! c) →
  isLoading (self sys) = true ∧ render_body (self sys) = BodyLoading.
Proof.
  intros sys Hc Hp.
  assert (isLoading (self sys) = true) as Hload.
  { revert c Hc Hp. subst sys.
    assert (∀ sys0,
              latest_or_aborted sys0 →
              (∀ c, head (issued (host sys0)) = Some c →
                    is_Some (pending (host sys0) !! c) →
                    isLoading (self sys0) = true) →
              ∀ c, head (issued (host (run sys0 evs))) = Some c →
                   is_Some (pending (host (run sys0 evs)) !! c) →
                   isLoading (self (run sys0 evs)) = true) as Hrun.
    { induction evs as [|ev evs IH]; intros sys0 Hinv Hload; [done|].
      apply IH; [by apply step_latest|by apply step_loading]. }
    apply Hrun; [apply boot_latest|]. intros c Hc. discriminate. }
  split; [exact Hload|]. unfold render_body. by rewrite Hload.
Qed.

Lemma loading_while_latest_in_flight_witness :
  let sys := run (boot (Some "app") (Some "sku"))
               [Connected None; ToggleForm;
                ListingResponse 0
                  (Fulfilled {| resp_ok := true; resp_status := 200 |})] in
  isLoading (self sys) = true ∧ render_body (self sys) = BodyLoading.
Proof.
  intros sys.
  apply (loading_while_latest_in_flight (Some "app") (Some "sku") _ 0%nat).
  - by vm_compute.
  - exists AwaitBody. by vm_compute.
Defined.

(** ** More theorems: the sort select *)

Lemma js_split_plain sep s :
  has_char sep s = false → js_split sep s = [s].
Proof.
  induction s as [|x rest IH]; simpl; [done|].
  intros [Hx Hrest]%orb_false_iff. rewrite Hx, IH; done.
Qed.

Lemma js_split_first sep a b :
  has_char sep a = false →
  js_split sep (a +:+ String sep b) = a :: js_split sep b.
Proof.
  induction a as [|x rest IH]; simpl.
  - intros _. by rewrite Ascii.eqb_refl.
  - intros [Hx Hrest]%orb_false_iff. rewrite Hx, IH; done.
Qed.

(** X19: [handleSort] reads the value of the select as "field-direction":
    the text before the first dash becomes the sort field and the text
    up to the next dash the direction; a value without a dash is taken
    whole as the field and leaves the direction undefined, which the
    request then spells "undefined". *)
Theorem handleSort_field_and_direction s field direction :
  has_char "-" field = false → has_char "-" direction = false →
  (let s' := (exec (handleSort (Some (field +:+ "-" +:+ direction))) s).1 in
   currentSort s' = field ∧ currentDirection s' = Some direction)
  ∧ (let s' := (exec (handleSort (Some field)) s).1 in
     currentSort s' = field ∧ currentDirection s' = None
     ∧ url_direction (buildApiUrl s') = "undefined").
Proof.
  intros Hf Hd. split.
  - rewrite handleSort_exec.
    change (field +:+ "-" +:+ direction)
      with (field +:+ String "-" direction).
    rewrite js_split_first, js_split_plain by done. simpl.
    set (s0 := set_currentPage 1 _).
    by destruct (fetchReviews_keeps s0) as (_ & _ & -> & -> & _).
  - rewrite handleSort_exec, js_split_plain by done. simpl.
    set (s0 := set_currentPage 1 _).
    unfold buildApiUrl. simpl.
    by destruct (fetchReviews_keeps s0) as (_ & _ & -> & -> & _).
Qed.

Lemma handleSort_field_and_direction_witness :
  let s := initial (Some "app") (Some "sku") in
  currentSort (exec (handleSort (Some "votes_up-desc")) s).1 = "votes_up"
  ∧ currentDirection (exec (handleSort (Some "votes_up-desc")) s).1
    = Some "desc".
Proof.
  intros s.
  destruct (handleSort_field_and_direction s "votes_up" "desc") as [H _];
    [reflexivity|reflexivity|exact H].
Defined.

(** X20: The select shows what was chosen: after [handleSort] on the value of
    one of its five options, [#renderControls] marks that option, and
    only that one, as selected. *)
Theorem handleSort_selects_option s option :
  option ∈ sort_options →
  selected (renderControls (exec (handleSort (Some option.1)) s).1)
  = [option.1].
Proof.
  intros Hin. rewrite handleSort_exec. set (s0 := set_currentPage 1 _).
  unfold renderControls. simpl.
  destruct (fetchReviews_keeps s0) as (_ & _ & -> & -> & _). subst s0.
  unfold sort_options in Hin.
  repeat (apply elem_of_cons in Hin as [->|Hin]; [reflexivity|]).
  by apply elem_of_nil in Hin.
Qed.

Lemma handleSort_selects_option_witness :
  selected
    (renderControls
       (exec (handleSort (Some "score-asc")) (initial None None)).1)
  = ["score-asc"].
Proof.
  apply (handleSort_selects_option (initial None None)
           ("score-asc", ("score", "asc"))).
  vm_compute. do 3 right. by left.
Defined.

(** ** More theorems: the histogram and the star filter *)

Lemma fetchReviews_summary s :
  bottomline (exec fetchReviews s).1 = bottomline s
  ∧ currentStarFilter (exec fetchReviews s).1 = currentStarFilter s.
Proof.
  destruct (fetchReviews_keeps s) as (_ & Hf & _ & _ & Hl & _).
  split; [|exact Hf]. exact (f_equal (λ x, x.1.1) Hl).
Qed.

(** X21: Choosing a star that is not the active filter marks its row, and
    only its row, in the histogram and shows the button that clears the
    filter; choosing it again leaves no row marked and no such button. *)
Theorem filterByStar_marks_row s b distribution star :
  bottomline s = Some b →
  star_distribution b = Some distribution →
  currentStarFilter s ≠ Some star →
  let once := (exec (filterByStar star) s).1 in
  let twice := (exec (filterByStar star) once).1 in
  (∃ h, renderHistogram once = Some h
     ∧ clear_filter h = true
     ∧ ∀ row, row ∈ rows h →
         row_active row = bool_decide (row_star row = star))
  ∧ (∃ h, renderHistogram twice = Some h
       ∧ clear_filter h = false
       ∧ ∀ row, row ∈ rows h → row_active row = false).
Proof.
  intros Hb Hd Hother once twice.
  assert (bottomline once = Some b ∧ currentStarFilter once = Some star)
    as [Hb1 Hf1].
  { subst once. rewrite filterByStar_exec.
    rewrite bool_decide_eq_false_2 by done.
    destruct (fetchReviews_summary
                (set_currentPage 1 (set_currentStarFilter (Some star) s)))
      as [-> ->]. done. }
  assert (bottomline twice = Some b ∧ currentStarFilter twice = None)
    as [Hb2 Hf2].
  { subst twice. rewrite filterByStar_exec.
    rewrite bool_decide_eq_true_2 by done.
    destruct (fetchReviews_summary
                (set_currentPage 1 (set_currentStarFilter None once)))
      as [-> ->]. done. }
  split.
  - unfold renderHistogram. rewrite Hb1. simpl. rewrite Hd. simpl.
    eexists. split; [reflexivity|]. simpl. rewrite Hf1.
    split; [done|]. intros row Hrow.
    repeat (apply elem_of_cons in Hrow as [->|Hrow];
            [simpl; apply bool_decide_ext; naive_solver|]).
    by apply elem_of_nil in Hrow.
  - unfold renderHistogram. rewrite Hb2. simpl. rewrite Hd. simpl.
    eexists. split; [reflexivity|]. simpl. rewrite Hf2.
    split; [done|]. intros row Hrow.
    repeat (apply elem_of_cons in Hrow as [->|Hrow]; [done|]).
    by apply elem_of_nil in Hrow.
Qed.

Lemma filterByStar_marks_row_witness :
  let b := {| total_review := 4; average_score := 4;
              star_distribution := Some {[ "5" := 1; "4" := 3 ]} |} in
  let s := set_bottomline (Some b) (initial (Some "app") (Some "sku")) in
  ∃ h, renderHistogram (exec (filterByStar 4) s).1 = Some h
    ∧ clear_filter h = true.
Proof.
  intros b s.
  destruct (filterByStar_marks_row s b {[ "5" := 1; "4" := 3 ]} 4
              eq_refl eq_refl) as [(h & Hh & Hclear & _) _]; [done|].
  by exists h.
Defined.

(** X22: for a summary that is consistent (a positive total, no
    negative count, and the five counts adding up to the total), every
    bar of the histogram is between 0% and 100% wide; the bar of a star
    without reviews is exactly 0% wide and the bar of a star that has
    all the reviews is exactly 100% wide. *)
Theorem renderHistogram_consistent s b h :
  bottomline s = Some b →
  renderHistogram s = Some h →
  0 < total_review b →
  (∀ row, row ∈ rows h → 0 ≤ row_count row) →
  histogram_counted h = total_review b →
  ∀ row, row ∈ rows h →
    (0 <= row_width row)%Q ∧ (row_width row <= 100)%Q
    ∧ (row_count row = 0 → row_width row = 0%Q)
    ∧ (row_count row = total_review b → row_width row = 100%Q).
Proof.
  intros Hb Hh Hpos Hcounts Hsum.
  unfold renderHistogram in Hh. rewrite Hb in Hh. simpl in Hh.
  destruct (star_distribution b) as [d|]; [|done]. simpl in Hh.
  injection Hh as <-. simpl in *.
  assert (histogram_total b = total_review b) as Ht
    by (apply histogram_total_spec; lia).
  rewrite Ht in *.
  unfold histogram_counted in Hsum. simpl in Hsum.
  set (c5 := histogram_count d 5) in *. set (c4 := histogram_count d 4) in *.
  set (c3 := histogram_count d 3) in *. set (c2 := histogram_count d 2) in *.
  set (c1 := histogram_count d 1) in *.
  assert (0 ≤ c5 ∧ 0 ≤ c4 ∧ 0 ≤ c3 ∧ 0 ≤ c2 ∧ 0 ≤ c1)
    as (H5 & H4 & H3 & H2 & H1).
  { repeat split.
    - apply (Hcounts
               {| row_star := 5; row_count := c5;
                  row_width := histogram_percentage c5 (total_review b);
                  row_active := bool_decide (currentStarFilter s = Some 5) |}).
      by left.
    - apply (Hcounts
               {| row_star := 4; row_count := c4;
                  row_width := histogram_percentage c4 (total_review b);
                  row_active := bool_decide (currentStarFilter s = Some 4) |}).
      right. by left.
    - apply (Hcounts
               {| row_star := 3; row_count := c3;
                  row_width := histogram_percentage c3 (total_review b);
                  row_active := bool_decide (currentStarFilter s = Some 3) |}).
      do 2 right. by left.
    - apply (Hcounts
               {| row_star := 2; row_count := c2;
                  row_width := histogram_percentage c2 (total_review b);
                  row_active := bool_decide (currentStarFilter s = Some 2) |}).
      do 3 right. by left.
    - apply (Hcounts
               {| row_star := 1; row_count := c1;
                  row_width := histogram_percentage c1 (total_review b);
                  row_active := bool_decide (currentStarFilter s = Some 1) |}).
      do 4 right. by left. }
  intros row Hrow.
  assert (∃ c, 0 ≤ c ≤ total_review b ∧ row_count row = c
               ∧ row_width row = histogram_percentage c (total_review b))
    as (c & Hc & -> & ->).
  { repeat (apply elem_of_cons in Hrow as [->|Hrow];
            [eexists; split; [|by split]; cbn [row_count]; lia|]).
    by apply elem_of_nil in Hrow. }
  destruct (histogram_percentage_bounds c (total_review b) Hc Hpos)
    as [Hlo Hhi].
  split; [exact Hlo|]. split; [exact Hhi|]. split.
  - intros ->. apply histogram_percentage_zero.
  - intros ->. apply histogram_percentage_full. lia.
Qed.

Lemma renderHistogram_consistent_witness :
  let b := {| total_review := 4; average_score := 4;
              star_distribution := Some {[ "5" := 1; "4" := 3 ]} |} in
  let s := set_bottomline (Some b) (initial (Some "app") (Some "sku")) in
  ∃ h, renderHistogram s = Some h
    ∧ ∀ row, row ∈ rows h →
        (0 <= row_width row)%Q ∧ (row_width row <= 100)%Q.
Proof.
  intros b s.
  destruct (renderHistogram s) as [h|] eqn:Hh; [|by vm_compute in Hh].
  exists h. split; [reflexivity|]. intros row Hrow.
  destruct (renderHistogram_consistent s b h eq_refl Hh) with (row := row)
    as (Hlo & Hhi & _).
  - by vm_compute.
  - vm_compute in Hh. injection Hh as <-. intros r Hr.
    repeat (apply elem_of_cons in Hr as [->|Hr]; [by vm_compute|]).
    by apply elem_of_nil in Hr.
  - vm_compute in Hh. injection Hh as <-. by vm_compute.
  - exact Hrow.
  - by split.
Defined.

(** ** More theorems: the review form and the lightbox *)



(** X24: [submitReview] changes no field.  Without a rating it reaches the
    network with nothing and only shows the validation message; with a
    rating it disables the button and sends exactly one request, the
    submission carrying the application key, the product identifier and
    the form. *)
Theorem submitReview_needs_rating s f :
  (exec (submitReview (Some f)) s).1 = s
  ∧ (form_score f = None →
     (exec (submitReview (Some f)) s).2
     = [FormMessage "Please select a star rating" "error"])
  ∧ (form_score f ≠ None →
     (exec (submitReview (Some f)) s).2
     = [SubmitButton true "Submitting...";
        FetchSubmit (appKey s) (productId s) f]
     ∧ List.filter is_request (exec (submitReview (Some f)) s).2
       = [FetchSubmit (appKey s) (productId s) f]).
Proof.
  unfold exec, submitReview, mbind, M_bind, get, emit.
  destruct (form_score f) as [score|]; simpl; repeat split; done.
Qed.

Lemma submitReview_needs_rating_witness :
  let f := {| form_score := None; form_title := "Great";
              form_content := "Works"; form_display_name := "Ann";
              form_email := "ann@example.com" |} in
  (exec (submitReview (Some f)) (initial (Some "app") (Some "sku"))).2
  = [FormMessage "Please select a star rating" "error"].
Proof.
  intros f.
  destruct (submitReview_needs_rating (initial (Some "app") (Some "sku")) f)
    as (_ & H & _).
  by apply H.
Defined.

(** X25: What follows a submission: on a response that is OK the form shows
    its thanks and a timer of three seconds is set, whose callback
    closes the form (the view is then the content, or the loading view);
    on any other outcome the form shows the failure, the button is
    enabled again and no timer is set, so the form stays open.  Neither
    changes a field before the timer fires. *)
Theorem submitReview_outcomes s r :
  (exec (submitReview_settled r) s).1 = s
  ∧ ((∃ resp, r = Fulfilled resp ∧ resp_ok resp = true) →
     (exec (submitReview_settled r) s).2
     = [FormMessage
          "Thank you! Your review has been submitted and is pending approval."
          "success";
        SetTimeout 3000])
  ∧ (¬ (∃ resp, r = Fulfilled resp ∧ resp_ok resp = true) →
     (exec (submitReview_settled r) s).2
     = [FormMessage "Failed to submit review. Please try again." "error";
        SubmitButton false "Submit Review"])
  ∧ showForm (exec submitReview_timeout s).1 = false
  ∧ render_body (exec submitReview_timeout s).1 ≠ BodyForm.
Proof.
  unfold exec, submitReview_settled, submitReview_timeout, render,
    render_body, mbind, M_bind, get, modify, emit.
  destruct r as [resp|e]; [destruct (resp_ok resp) eqn:Hok|]; simpl.
  - split; [done|]. split; [done|]. split; [|by destruct (isLoading s)].
    intros Hnot. destruct Hnot. by exists resp.
  - split; [done|]. split; [|split; [done|by destruct (isLoading s)]].
    intros (resp' & [= <-] & Hok'). congruence.
  - split; [done|]. split; [|split; [done|by destruct (isLoading s)]].
    by intros (resp' & [=] & _).
Qed.

Lemma submitReview_outcomes_witness :
  (exec (submitReview_settled
           (Fulfilled {| resp_ok := false; resp_status := 422 |}))
     (initial None None)).2
  = [FormMessage "Failed to submit review. Please try again." "error";
     SubmitButton false "Submit Review"].
Proof.
  destruct (submitReview_outcomes (initial None None)
              (Fulfilled {| resp_ok := false; resp_status := 422 |}))
    as (_ & _ & H & _).
  apply H. intros (resp & [= <-] & Hok). discriminate.
Defined.

(** X26: A thumbnail opens its own picture: for the first review with a
    given id, [#renderReviewImages] draws one thumbnail per image, and
    [openImageModal] at the index of a thumbnail opens the modal on the
    full-size URL of that image; at an index without a thumbnail, or
    for a review that is not in the list, it does nothing.  It never
    changes a field. *)
Theorem openImageModal_opens_thumbnail s r imageIndex :
  List.find (λ x, id x =? id r) (reviews s) = Some r →
  (exec (openImageModal (id r) imageIndex) s).1 = s
  ∧ (∀ images image, images_data r = Some images →
       images !! imageIndex = Some image →
       renderReviewImages r !! imageIndex = Some (image_src image)
       ∧ (exec (openImageModal (id r) imageIndex) s).2
         = [ModalOpen (original_url image)])
  ∧ (renderReviewImages r !! imageIndex = None →
     (exec (openImageModal (id r) imageIndex) s).2 = []).
Proof.
  intros Hfind.
  unfold exec, openImageModal, renderReviewImages, mbind, M_bind, get.
  rewrite Hfind. simpl. split; [|split].
  - destruct (images_data r) as [images|]; simpl; [|done].
    by destruct (images !! imageIndex).
  - intros images image -> Himage. simpl. rewrite Himage.
    split; [|done]. by rewrite list_lookup_fmap, Himage.
  - destruct (images_data r) as [images|]; simpl; [|done].
    rewrite list_lookup_fmap. by destruct (images !! imageIndex).
Qed.

Lemma openImageModal_opens_thumbnail_witness :
  let r := {| id := 7; score := 4; votes_up := None; votes_down := None;
              images_data := Some
                [{| original_url := "full.jpg"; thumbnail_url := EmptyString |}] |} in
  let s := set_reviews [r] (initial (Some "app") (Some "sku")) in
  (exec (openImageModal 7 0) s).2 = [ModalOpen "full.jpg"]
  ∧ (exec (openImageModal 7 1) s).2 = [].
Proof.
  intros r s. split.
  - destruct (openImageModal_opens_thumbnail s r 0 eq_refl) as (_ & H & _).
    by destruct (H _ _ eq_refl eq_refl).
  - destruct (openImageModal_opens_thumbnail s r 1 eq_refl) as (_ & _ & H).
    by apply H.
Defined.

(** An unknown review opens nothing. *)
Lemma openImageModal_unknown s reviewId imageIndex :
  List.find (λ x, id x =? reviewId) (reviews s) = None →
  exec (openImageModal reviewId imageIndex) s = (s, []).
Proof.
  intros Hfind. unfold exec, openImageModal, mbind, M_bind, get.
  by rewrite Hfind.
Qed.
